(** * CFB Loyalty Index: the scoring and aggregation core

    A shallow embedding of [src/scoring/transferProbability.js] (the Scorer)
    and [src/data/aggregate.js] (the Aggregator), with the properties their
    specification states about them.

    Conventions of the embedding.

    - A JavaScript number is a [num]: [NaN], the two infinities, or a finite
      value carried as a rational in lowest terms ([Qc]).  Finite arithmetic
      is exact: binary64 rounding, overflow and the sign of zero are not
      represented.  [NaN] and the infinities follow IEEE 754 as JavaScript
      does.
    - A property value read by the code only through [v == null] and
      [Number(v)] is a [value]: [VUndefined], [VNull], a number [VNum n], or
      any other value (a string, a boolean, an array, an object) carried as
      [VOther n] where [n] is what [Number] makes of it.  So ["abc"] and
      [{}] are [VOther NaN], ["0.3"] is [VOther (Fin 0.3)], [true] is
      [VOther (Fin 1)].
    - An object used as a map (the weight tables) is a [gmap string _]; an
      object whose insertion order is observed through [Object.entries] is
      an association list in that order.
    - Values on which [Number] itself throws (a Symbol, an object with a
      throwing [valueOf]) are outside the embedding, as are properties
      inherited from [Object.prototype]. *)

From Stdlib Require Import QArith Qcanon Qround Lqa Ascii String.
From stdpp Require Import gmap strings list fin_maps numbers.

Local Open Scope Qc_scope.

(** ** JavaScript numbers *)

Module JS.

Inductive num : Type :=
  | NaN
  | NegInf
  | Fin (q : Qc)
  | PosInf.

#[global] Instance num_eq_dec : EqDecision num.
Proof. solve_decision. Defined.

(** Decimal literals of the source, as rationals in lowest terms. *)
Definition lit (q : Q) : num := Fin (Q2Qc q).

Definition isNaN (x : num) : bool :=
  match x with NaN => true | _ => false end.

(** Sign of a number that is not [NaN]. *)
Definition sign (x : num) : comparison :=
  match x with
  | NaN => Eq
  | NegInf => Lt
  | Fin q => q ?= 0
  | PosInf => Gt
  end.

Definition signed_inf (s : comparison) : num :=
  match s with Lt => NegInf | Eq => NaN | Gt => PosInf end.

Definition sign_mul (s t : comparison) : comparison :=
  match s, t with
  | Eq, _ | _, Eq => Eq
  | Lt, Lt | Gt, Gt => Gt
  | Lt, Gt | Gt, Lt => Lt
  end.

(** [x + y] *)
Definition add (x y : num) : num :=
  match x, y with
  | NaN, _ | _, NaN => NaN
  | PosInf, NegInf | NegInf, PosInf => NaN
  | PosInf, _ | _, PosInf => PosInf
  | NegInf, _ | _, NegInf => NegInf
  | Fin a, Fin b => Fin (a + b)
  end.

(** [-x] *)
Definition neg (x : num) : num :=
  match x with
  | NaN => NaN
  | NegInf => PosInf
  | Fin a => Fin (- a)
  | PosInf => NegInf
  end.

(** [x - y] *)
Definition sub (x y : num) : num := add x (neg y).

(** [x * y]: an infinity times zero is [NaN]. *)
Definition mul (x y : num) : num :=
  match x, y with
  | NaN, _ | _, NaN => NaN
  | Fin a, Fin b => Fin (a * b)
  | _, _ => signed_inf (sign_mul (sign x) (sign y))
  end.

(** [x / y]: a finite non-zero value over zero is an infinity, [0 / 0] and
    [Infinity / Infinity] are [NaN]. *)
Definition div (x y : num) : num :=
  match x, y with
  | NaN, _ | _, NaN => NaN
  | Fin a, Fin b =>
      if decide (b = 0) then signed_inf (a ?= 0) else Fin (a / b)
  | Fin _, _ => Fin 0
  | _, Fin b => if decide (b < 0) then neg x else x
  | _, _ => NaN
  end.

(** [x < y]; false as soon as one side is [NaN]. *)
Definition ltb (x y : num) : bool :=
  match x, y with
  | NaN, _ | _, NaN => false
  | _, NegInf => false
  | NegInf, _ => true
  | PosInf, _ => false
  | _, PosInf => true
  | Fin a, Fin b => bool_decide (a < b)
  end.

(** [x <= y]; false as soon as one side is [NaN]. *)
Definition leb (x y : num) : bool :=
  match x, y with
  | NaN, _ | _, NaN => false
  | NegInf, _ => true
  | _, NegInf => false
  | _, PosInf => true
  | PosInf, _ => false
  | Fin a, Fin b => bool_decide (a ≤ b)
  end.

(** [x > y] *)
Definition gtb (x y : num) : bool := ltb y x.

(** [Math.max(x, y)] and [Math.min(x, y)]: [NaN] if either argument is. *)
Definition Math_max (x y : num) : num :=
  match x, y with
  | NaN, _ | _, NaN => NaN
  | _, _ => if ltb x y then y else x
  end.

Definition Math_min (x y : num) : num :=
  match x, y with
  | NaN, _ | _, NaN => NaN
  | _, _ => if ltb y x then y else x
  end.

(** [Math.round(x)]: the nearest integer, halves going up. *)
Definition Math_round (x : num) : num :=
  match x with
  | Fin q => Fin (Qc_of_Z (Qfloor (q + Q2Qc (1 # 2))))
  | _ => x
  end.

(** A number is falsy when it is zero or [NaN]. *)
Definition falsy (x : num) : bool :=
  match x with
  | NaN => true
  | Fin q => bool_decide (q = 0)
  | _ => false
  end.

(** [x || y] on numbers. *)
Definition or_else (x y : num) : num := if falsy x then y else x.

(** Values that the code reads through [== null] and [Number(...)] only. *)
Inductive value : Type :=
  | VUndefined
  | VNull
  | VNum (n : num)
  | VOther (coerced : num).

#[global] Instance value_eq_dec : EqDecision value.
Proof. solve_decision. Defined.

(** [v == null] *)
Definition isNullish (v : value) : bool :=
  match v with VUndefined | VNull => true | _ => false end.

(** [Number(v)] *)
Definition Number (v : value) : num :=
  match v with
  | VUndefined => NaN
  | VNull => Fin 0
  | VNum n => n
  | VOther n => n
  end.

(** [v ?? d] *)
Definition nullish_or (v d : value) : value :=
  if isNullish v then d else v.

End JS.

Import JS.

Declare Scope js_scope.
Delimit Scope js_scope with js.
Infix "+" := JS.add : js_scope.
Infix "-" := JS.sub : js_scope.
Infix "*" := JS.mul : js_scope.
Infix "/" := JS.div : js_scope.

(** ** The Scorer: [src/scoring/transferProbability.js] *)

Module Scorer.

(** A weight table, keyed by factor name.  Weights are numbers, as the
    JSDoc has them; the value under a key is [None] when the property is
    present but holds [null] or [undefined]. *)
Abbreviation weightMap := (gmap string (option num)).

Definition DEFAULT_WEIGHTS : weightMap :=
  list_to_map
    [ ("playingTime", Some (lit 0.22));
      ("distanceFromHome", Some (lit 0.15));
      ("recruitingRank", Some (lit 0.18));
      ("teamPerformance", Some (lit 0.15));
      ("nilCollectives", Some (lit 0.10));
      ("snapsPlayed", Some (lit 0.12));
      ("socialSentiment", Some (lit 0.08)) ].

(** [normalize(value, min, max)], lines 19-23. *)
Definition normalize (v : value) (min max : num) : num :=
  if isNullish v || isNaN (Number v) then lit 0.5
  else
    let v' := Math_max min (Math_min max (Number v)) in
    ((v' - min) / or_else (max - min) (lit 1))%js.

(** [riskFromPlayingTime(usage)], lines 29-33. *)
Definition riskFromPlayingTime (usage : value) : num :=
  if isNullish usage then lit 0.5
  else
    let u := Math_max (lit 0) (Math_min (lit 1) (Number usage)) in
    (lit 1 - u)%js.

(** [riskFromDistance(miles)], lines 38-42. *)
Definition riskFromDistance (miles : value) : num :=
  if isNullish miles then lit 0.5
  else
    let m := Math_max (lit 0) (Number miles) in
    normalize (VNum m) (lit 0) (lit 1500).

(** [riskFromRecruiting(recruitingRankNormalized, playingTimeNormalized)],
    lines 49-55. *)
Definition riskFromRecruiting (recruitingRankNormalized playingTimeNormalized : value) : num :=
  if isNullish recruitingRankNormalized then lit 0.5
  else
    let rank := Math_max (lit 0) (Math_min (lit 1) (Number recruitingRankNormalized)) in
    let usage :=
      if negb (isNullish playingTimeNormalized)
      then Math_max (lit 0) (Math_min (lit 1) (Number playingTimeNormalized))
      else lit 0.5 in
    (rank * (lit 1 - usage))%js.

(** [riskFromTeamPerformance(winRate)], lines 60-64. *)
Definition riskFromTeamPerformance (winRate : value) : num :=
  if isNullish winRate then lit 0.5
  else
    let w := Math_max (lit 0) (Math_min (lit 1) (Number winRate)) in
    (lit 1 - w)%js.

(** [riskFromNIL(nilScore)], lines 69-73. *)
Definition riskFromNIL (nilScore : value) : num :=
  if isNullish nilScore then lit 0.5
  else
    let n := Math_max (lit 0) (Math_min (lit 1) (Number nilScore)) in
    (lit 1 - n)%js.

(** [riskFromSnaps(snaps, maxSnaps = 800)], lines 78-82. *)
Definition riskFromSnaps (snaps : value) (maxSnaps : num) : num :=
  if isNullish snaps then lit 0.5
  else
    let s := Math_max (lit 0) (Number snaps) in
    (lit 1 - normalize (VNum s) (lit 0) maxSnaps)%js.

(** [riskFromSocial(sentiment)], lines 87-90. *)
Definition riskFromSocial (sentiment : value) : num :=
  if isNullish sentiment then lit 0.5
  else Math_max (lit 0) (Math_min (lit 1) (Number sentiment)).

(** The signal record; [weights] is [None] when the property is missing or
    nullish (spreading it then copies nothing). *)
Record SignalRecord : Type := mkSignalRecord {
  playingTime : value;
  distanceFromHighSchoolMiles : value;
  recruitingRank : value;
  teamWinRate : value;
  nilScore : value;
  snapsPlayed : value;
  socialSentiment : value;
  weights : option weightMap
}.

(** The object literal [{}]. *)
Definition emptyRecord : SignalRecord :=
  mkSignalRecord VUndefined VUndefined VUndefined VUndefined VUndefined
    VUndefined VUndefined None.

Record BreakdownEntry : Type := mkEntry {
  risk : num;
  weight : num;
  contribution : num
}.

#[global] Instance BreakdownEntry_eq_dec : EqDecision BreakdownEntry.
Proof. solve_decision. Defined.

Record Result : Type := mkResult {
  probability : num;
  breakdown : list (string * BreakdownEntry);
  factors : list (string * num)
}.

#[global] Instance Result_eq_dec : EqDecision Result.
Proof. solve_decision. Defined.

(** [{ ...a, ...b }]: the properties of [b] override those of [a]. *)
Definition spread (a : weightMap) (b : option weightMap) : weightMap :=
  match b with
  | Some m => m ∪ a
  | None => a
  end.

(** [w[key]]: [None] stands for a nullish result. *)
Definition get (w : weightMap) (key : string) : option num :=
  mjoin (w !! key).

(** [w[key] ?? 0] *)
Definition getOrZero (w : weightMap) (key : string) : num :=
  default (lit 0) (get w key).

(** One turn of the first loop, lines 134-140:
    [if (weight != null && weight > 0) { ... }]. *)
Definition accumulate (w : weightMap) (acc : num * num) (entry : string * num) : num * num :=
  let '(totalWeight, weightedSum) := acc in
  let '(key, risk) := entry in
  match get w key with
  | Some weight =>
      if gtb weight (lit 0)
      then ((totalWeight + weight)%js, (weightedSum + weight * risk)%js)
      else acc
  | None => acc
  end.

(** One turn of the second loop, lines 144-146, building [breakdown[key]]. *)
Definition breakdownEntry (w : weightMap) (entry : string * num) : string * BreakdownEntry :=
  let '(key, risk) := entry in
  (key,
   {| risk := (Math_round (risk * lit 100) / lit 100)%js;
      weight := getOrZero w key;
      contribution := (Math_round (getOrZero w key * risk * lit 100) / lit 100)%js |}).

(** Lines 109-130: the seven risks and the [factors] object literal, in
    source order. *)
Definition computeFactors (input : SignalRecord) : list (string * num) :=
  let playingTime :=
    if negb (isNullish (playingTime input))
    then VNum (Number (playingTime input)) else VNull in
  let recruitingNorm :=
    if negb (isNullish (recruitingRank input))
    then VNum (if leb (Number (recruitingRank input)) (lit 1)
               then Number (recruitingRank input)
               else (Number (recruitingRank input) / lit 100)%js)
    else VNull in
  let rPlaying := riskFromPlayingTime playingTime in
  let rDistance := riskFromDistance (distanceFromHighSchoolMiles input) in
  let rRecruiting := riskFromRecruiting recruitingNorm playingTime in
  let rTeam := riskFromTeamPerformance (teamWinRate input) in
  let rNIL := riskFromNIL (nilScore input) in
  let rSnaps := riskFromSnaps (snapsPlayed input) (lit 800) in
  let rSocial := riskFromSocial (socialSentiment input) in
  [ ("playingTime", rPlaying);
    ("distanceFromHome", rDistance);
    ("recruitingRank", rRecruiting);
    ("teamPerformance", rTeam);
    ("nilCollectives", rNIL);
    ("snapsPlayed", rSnaps);
    ("socialSentiment", rSocial) ].

(** The keys of the [factors] literal, in source order. *)
Definition FACTOR_KEYS : list string :=
  [ "playingTime"; "distanceFromHome"; "recruitingRank"; "teamPerformance";
    "nilCollectives"; "snapsPlayed"; "socialSentiment" ].

(** Line 107: [{ ...DEFAULT_WEIGHTS, ...input.weights, ...weights }]. *)
Definition resolveWeights (input : SignalRecord) (weights' : weightMap) : weightMap :=
  spread (spread DEFAULT_WEIGHTS (weights input)) (Some weights').

(** [computeTransferProbability(input = {}, weights = {})], lines 106-153. *)
Definition computeTransferProbability (input : SignalRecord) (weights' : weightMap) : Result :=
  let w := resolveWeights input weights' in
  let factors := computeFactors input in
  let '(totalWeight, weightedSum) :=
    foldl (accumulate w) (lit 0, lit 0) factors in
  let probability :=
    if gtb totalWeight (lit 0)
    then (weightedSum / totalWeight * lit 100)%js
    else lit 50 in
  let breakdown := breakdownEntry w <$> factors in
  {| probability := (Math_round (probability * lit 10) / lit 10)%js;
     breakdown := breakdown;
     factors := factors |}.

End Scorer.


(** ** The Aggregator: [src/data/aggregate.js]

    The remote source is a record of query functions, each answering with
    rows or failing.  Rows are typed by how the code reads them: a property
    read as text is an [option string] ([None] when missing or nullish), a
    property read through [pickNum] or compared as a number is a [value], a
    win/loss tally is an [option num].  Text is ASCII: [trim] strips the six
    ASCII white-space characters and the case functions move the letters
    A-Z and a-z.  Within one aggregation the same query gets the same
    answer, and the order in which the four fetches settle is not
    observable. *)

Module Text.

(** [s.trim()] *)
Fixpoint trimStart (s : string) : string :=
  match s with
  | String a rest => if Ascii.is_space a then trimStart rest else s
  | EmptyString => EmptyString
  end.

Definition trim (s : string) : string :=
  String.rev (trimStart (String.rev (trimStart s))).

Definition lowerChar (a : ascii) : ascii :=
  let n := N_of_ascii a in
  if (65 <=? n)%N && (n <=? 90)%N then ascii_of_N (n + 32) else a.

Definition upperChar (a : ascii) : ascii :=
  let n := N_of_ascii a in
  if (97 <=? n)%N && (n <=? 122)%N then ascii_of_N (n - 32) else a.

Fixpoint mapChars (f : ascii → ascii) (s : string) : string :=
  match s with
  | String a rest => String (f a) (mapChars f rest)
  | EmptyString => EmptyString
  end.

(** [s.toLowerCase()] and [s.toUpperCase()] *)
Definition toLowerCase : string → string := mapChars lowerChar.
Definition toUpperCase : string → string := mapChars upperChar.

(** [s.includes(part)] *)
Fixpoint includes (s part : string) : bool :=
  String.prefix part s ||
  match s with
  | String _ rest => includes rest part
  | EmptyString => false
  end.

Fixpoint untilComma (s : string) : string :=
  match s with
  | String a rest => if Ascii.eqb a "," then EmptyString else String a (untilComma rest)
  | EmptyString => EmptyString
  end.

(** [s.split(',').pop()] *)
Definition lastPiece (s : string) : string :=
  String.rev (untilComma (String.rev s)).

(** Truthiness of a text property: present and not empty. *)
Definition truthy (s : option string) : bool :=
  match s with
  | Some t => negb (String.eqb t "")
  | None => false
  end.

(** [a || b] *)
Definition or_else (a b : option string) : option string :=
  if truthy a then a else b.

(** [a || ''] *)
Definition or_empty (a : option string) : string :=
  if truthy a then default EmptyString a else EmptyString.

End Text.

Module Aggregator.

Import Text.

(** A settled request: rejected, or fulfilled with the rows of the body. *)
Inductive fetched (A : Type) : Type :=
  | Failed (message : string)
  | Returned (rows : list A).
Arguments Failed {A} message.
Arguments Returned {A} rows.

(** [request.catch(() => [])] *)
Definition catchEmpty {A} (r : fetched A) : list A :=
  match r with
  | Failed _ => []
  | Returned rows => rows
  end.

Module Candidate.
Record t : Type := make {
  name : option string;
  player : option string;
  team : option string;
  school : option string
}.
End Candidate.

Module Usage.
Inductive snapCounts : Type :=
  | NoSnapCounts
  | SnapArray (counts : list value)
  | SnapNumber (count : num).

Record t : Type := make {
  player : option string;
  name : option string;
  usg_overall : value;
  usage_overall : value;
  usage : value;
  usageOverall : value;
  snap_counts : snapCounts;
  snaps : value;
  snap_count : value;
  totalSnaps : value
}.
End Usage.

Module Recruit.
Record t : Type := make {
  name : option string;
  player : option string;
  rating : value;
  rank : value;
  overall : value;
  stars : value
}.
End Recruit.

Module Roster.
Record t : Type := make {
  name : option string;
  player : option string;
  hometown : option string;
  home_town : option string;
  city : option string
}.
End Roster.

Module Season.
Record tally : Type := makeTally {
  total_wins : option num;
  wins : option num;
  total_losses : option num;
  losses : option num;
  total_games : option num;
  games : option num
}.

(** A row of [/records]: [own] holds the tally properties found on the row
    itself, [total] the nested [total] object when there is one. *)
Record t : Type := make {
  season : option num;
  year : option num;
  team : option string;
  total : option tally;
  own : tally
}.
End Season.

Module Game.
Record t : Type := make {
  home_team : option string;
  home_points : value;
  away_points : value
}.
End Game.

(** [src/api/client.js], as far as the Aggregator calls it. *)
Record Api : Type := {
  searchPlayers : num → string → fetched Candidate.t;
  getPlayerUsage : num → string → fetched Usage.t;
  getRoster : string → num → fetched Roster.t;
  getRecruitingPlayers : num → string → fetched Recruit.t;
  getTeamRecords : num → string → fetched Season.t;
  getTeamGames : num → string → string → fetched Game.t
}.

(** The errors an aggregation ends with.  [InputError] is
    [Error('Provide either a player name or a team (or both).')],
    [ResolutionError] is [Error(`No player found for "${playerName}". ...`)],
    [FetchError] is a rejection of [api.searchPlayers], which [await]
    rethrows. *)
Inductive error : Type :=
  | InputError
  | ResolutionError (playerName : string)
  | FetchError (message : string).

#[global] Instance error_eq_dec : EqDecision error.
Proof. solve_decision. Defined.

Inductive outcome (A : Type) : Type :=
  | Resolves (a : A)
  | Throws (e : error).
Arguments Resolves {A} a.
Arguments Throws {A} e.

Definition STATE_DISTANCE_APPROXIMATE_MILES : num := lit 800.

Module Resolved.
Record t : Type := make { team : string; name : string }.
End Resolved.

(** [p.name || p.player || ''] *)
Definition candidateName (p : Candidate.t) : string :=
  or_empty (or_else (Candidate.name p) (Candidate.player p)).

(** [match.team || match.school] *)
Definition affiliation (m : Candidate.t) : option string :=
  or_else (Candidate.team m) (Candidate.school m).

(** The candidate that [resolvePlayerByName] settles on: [exact || list.find(...)],
    the first candidate whose lowered name equals [nameLower], else the first
    whose lowered name includes it. *)
Definition findMatch (list : list Candidate.t) (nameLower : string) : option Candidate.t :=
  let exact :=
    List.find (λ p, String.eqb (toLowerCase (candidateName p)) nameLower) list in
  match exact with
  | Some p => Some p
  | None => List.find (λ p, includes (toLowerCase (candidateName p)) nameLower) list
  end.

(** [resolvePlayerByName(year, playerName)], lines 17-28. *)
Definition resolvePlayerByName (api : Api) (year : num) (playerName : option string)
  : outcome (option Resolved.t) :=
  match playerName with
  | None => Resolves None
  | Some given =>
      if String.eqb (trim given) "" then Resolves None
      else
        match searchPlayers api year (trim given) with
        | Failed message => Throws (FetchError message)
        | Returned [] => Resolves None
        | Returned list =>
            let nameLower := toLowerCase given in
            match findMatch list nameLower with
            | None => Resolves None
            | Some m =>
                let team := affiliation m in
                if negb (truthy team) then Resolves None
                else
                  Resolves (Some
                    {| Resolved.team := or_empty team;
                       Resolved.name :=
                         or_empty (or_else (or_else (Candidate.name m) (Candidate.player m))
                                     (Some given)) |})
            end
        end
  end.

(** [a ?? b] on tallies. *)
Definition orNum (a b : option num) : option num :=
  match a with Some _ => a | None => b end.

(** [String(r.season ?? r.year ?? '') === y], with [y = String(year)]:
    two numbers print alike exactly when they are the same number. *)
Definition seasonIs (r : Season.t) (year : num) : bool :=
  match orNum (Season.season r) (Season.year r) with
  | Some n => bool_decide (n = year)
  | None => false
  end.

(** [r.team === team] *)
Definition teamIs (r : Season.t) (team : string) : bool :=
  match Season.team r with
  | Some t => String.eqb t team
  | None => false
  end.

(** [findTeamRecord(records, year, team)], lines 50-54. *)
Definition findTeamRecord (records : list Season.t) (year : num) (team : string)
  : option Season.t :=
  match List.find (λ r, seasonIs r year && (teamIs r team || negb (truthy (Season.team r))))
          records with
  | Some r => Some r
  | None => List.find (λ r, teamIs r team) records
  end.

(** [g.home_team === team ? g.home_points > g.away_points
                          : g.away_points > g.home_points];
    the scores are numbers or nullish (two texts would be compared as
    text). *)
Definition wonBy (team : string) (g : Game.t) : bool :=
  if match Game.home_team g with Some t => String.eqb t team | None => false end
  then gtb (Number (Game.home_points g)) (Number (Game.away_points g))
  else gtb (Number (Game.away_points g)) (Number (Game.home_points g)).

Definition count {A} (l : list A) : num := Fin (Qc_of_Z (Z.of_nat (length l))).

(** [getWinRate(year, team)], lines 33-48.  The condition of the
    conditional on line 39 is
    [season.total?.games ?? season.games ?? (season.total?.losses != null)],
    as the operators bind; any exception in the body is caught and gives
    0.5. *)
Definition getWinRate (api : Api) (year : num) (team : string) : num :=
  match getTeamRecords api year team with
  | Failed _ => lit 0.5
  | Returned records =>
      let fromSeason :=
        match findTeamRecord records year team with
        | Some season =>
            let total := Season.total season in
            let own := Season.own season in
            let wins :=
              default (lit 0) (orNum (total ≫= Season.wins) (Season.wins own)) in
            let condition :=
              match orNum (total ≫= Season.games) (Season.games own) with
              | Some n => negb (falsy n)
              | None => bool_decide (is_Some (total ≫= Season.losses))
              end in
            let games :=
              if condition
              then (wins + default (lit 0)
                             (orNum (total ≫= Season.losses) (Season.losses own)))%js
              else lit 0 in
            if gtb games (lit 0) then Some (wins / games)%js else None
        | None => None
        end in
      match fromSeason with
      | Some rate => rate
      | None =>
          match getTeamGames api year team "regular" with
          | Failed _ => lit 0.5
          | Returned games =>
              let wins := count (List.filter (wonBy team) games) in
              if gtb (count games) (lit 0) then (wins / count games)%js else lit 0.5
          end
      end
  end.

(** [normalizeRecruitingRating(rating)], lines 59-68. *)
Definition normalizeRecruitingRating (rating : option num) : option num :=
  match rating with
  | None => None
  | Some r =>
      if isNaN r then None
      else if leb r (lit 1) then Some r
      else if leb r (lit 5) then Some (r / lit 5)%js
      else if leb r (lit 100) then Some (r / lit 100)%js
      else if leb r (lit 255) then Some (r / lit 255)%js
      else Some (Math_min (lit 1) (r / lit 300)%js)
  end.

(** [pickNum(obj, ...keys)], lines 71-78, given the values under the keys
    in order. *)
Fixpoint pickNum (values : list value) : option num :=
  match values with
  | [] => None
  | v :: rest =>
      if negb (isNullish v) && negb (isNaN (Number v)) then Some (Number v)
      else pickNum rest
  end.

(** [pickStr(obj, ...keys)], lines 81-88, given the values under the keys
    in order. *)
Fixpoint pickStr (values : list (option string)) : option string :=
  match values with
  | [] => None
  | v :: rest =>
      match v with
      | Some s => if negb (String.eqb (trim s) "") then Some (trim s) else pickStr rest
      | None => pickStr rest
      end
  end.

Definition TEAM_STATE : gmap string string :=
  list_to_map
    [ ("Ohio State", "OH"); ("Michigan", "MI"); ("Alabama", "AL"); ("Georgia", "GA");
      ("Texas", "TX"); ("Oklahoma", "OK"); ("Clemson", "SC"); ("Florida State", "FL");
      ("Florida", "FL"); ("LSU", "LA"); ("Penn State", "PA"); ("Notre Dame", "IN");
      ("Tennessee", "TN"); ("USC", "CA"); ("Oregon", "OR"); ("Washington", "WA");
      ("Texas A&M", "TX"); ("Auburn", "AL"); ("Miami", "FL"); ("Nebraska", "NE");
      ("Iowa", "IA"); ("Wisconsin", "WI"); ("Michigan State", "MI"); ("Kentucky", "KY");
      ("South Carolina", "SC"); ("Arkansas", "AR"); ("Ole Miss", "MS");
      ("Mississippi State", "MS");
      ("Missouri", "MO"); ("North Carolina", "NC"); ("Virginia Tech", "VA");
      ("West Virginia", "WV");
      ("California", "CA"); ("Stanford", "CA"); ("UCLA", "CA"); ("Arizona", "AZ");
      ("Arizona State", "AZ"); ("Utah", "UT"); ("Colorado", "CO"); ("Kansas", "KS");
      ("Kansas State", "KS"); ("Oklahoma State", "OK"); ("Baylor", "TX"); ("TCU", "TX");
      ("Texas Tech", "TX"); ("Houston", "TX"); ("SMU", "TX"); ("Tulane", "LA");
      ("Maryland", "MD"); ("Rutgers", "NJ"); ("Indiana", "IN"); ("Purdue", "IN");
      ("Illinois", "IL"); ("Northwestern", "IL"); ("Minnesota", "MN") ].

(** [inferTeamState(team)]; names inherited from [Object.prototype] are not
    represented, so a team called ["constructor"] has no state here. *)
Definition inferTeamState (team : string) : option string :=
  if truthy (TEAM_STATE !! team) then TEAM_STATE !! team else None.

Module Opts.
Record t : Type := make {
  year : num;
  team : option string;
  playerName : option string;
  distanceFromHighSchoolMiles : value;
  nilScore : value;
  socialSentiment : value;
  (* Properties the caller may also pass; the destructuring on the first
     line of [aggregatePlayerInput] does not name them. *)
  playingTime : value;
  teamWinRate : value;
  recruitingRank : value;
  snapsPlayed : value
}.
End Opts.

Module Meta.
Record t : Type := make {
  playerName : option string;
  team : string;
  year : num
}.
End Meta.

Module Out.
Record t : Type := make {
  playingTime : value;
  distanceFromHighSchoolMiles : value;
  recruitingRank : value;
  teamWinRate : value;
  nilScore : value;
  snapsPlayed : value;
  socialSentiment : value;
  _meta : Meta.t
}.
End Out.

(** [!team || !String(team).trim()] *)
Definition blank (team : option string) : bool :=
  match team with
  | Some t => String.eqb (trim t) ""
  | None => true
  end.

(** [n === nameLower || n.includes(nameLower) || nameLower.includes(n)] *)
Definition nameMatches (nameLower n : string) : bool :=
  String.eqb n nameLower || includes n nameLower || includes nameLower n.

(** Lines 147-171, once per source list: the first row whose name matches
    when a player is named, else the first row. *)
Definition selectRow {A} (rowName : A → option string) (playerName : option string)
    (rows : list A) : option A :=
  let named :=
    if truthy playerName
    then
      let nameLower := toLowerCase (or_empty playerName) in
      List.find (λ p, nameMatches nameLower (toLowerCase (or_empty (rowName p)))) rows
    else None in
  match named with
  | Some p => Some p
  | None => head rows
  end.

(** [value ?? undefined], for a number that may be [null]. *)
Definition orUndefined (n : option num) : value :=
  match n with
  | Some x => VNum x
  | None => VUndefined
  end.

(** Lines 127-138: the win rate read from the rows of [/records], before
    the fallback to [getWinRate]. *)
Definition winRateFromRecords (records : list Season.t) (year : num) (team : string) : num :=
  match findTeamRecord records year team with
  | Some season =>
      let rec := default (Season.own season) (Season.total season) in
      let wins :=
        default (lit 0) (orNum (Season.total_wins rec) (Season.wins rec)) in
      let losses :=
        default (lit 0) (orNum (Season.total_losses rec) (Season.losses rec)) in
      let games :=
        JS.or_else
          (JS.or_else
             (default (lit 0) (orNum (Season.total_games rec) (Season.games rec)))
             (wins + losses)%js)
          (lit 1) in
      if gtb games (lit 0) then (wins / games)%js else lit 0.5
  | None => lit 0.5
  end.

(** Lines 173-186: [playingTime] and [snapsPlayed] as read from the chosen
    usage row. *)
Definition usageSignals (playerUsage : option Usage.t) : option num * option num :=
  match playerUsage with
  | None => (None, None)
  | Some u =>
      let playingTime :=
        pickNum [Usage.usg_overall u; Usage.usage_overall u; Usage.usage u;
                 Usage.usageOverall u] in
      let playingTime :=
        match playingTime with
        | Some p => if gtb p (lit 1) then Some (p / lit 100)%js else Some p
        | None => None
        end in
      let counts :=
        match Usage.snap_counts u with
        | Usage.NoSnapCounts => None
        | Usage.SnapArray arr => Some arr
        | Usage.SnapNumber n => if falsy n then None else Some [VNum n]
        end in
      let '(playingTime, snapsPlayed) :=
        match playingTime, counts with
        | None, Some arr =>
            let total :=
              foldl (λ a b, (a + JS.or_else (Number b) (lit 0))%js) (lit 0) arr in
            (Some (Math_min (lit 1) (total / (lit 70 * lit 12))%js), Some total)
        | _, _ => (playingTime, None)
        end in
      let snapsPlayed :=
        match snapsPlayed with
        | Some s => Some s
        | None => pickNum [Usage.snaps u; Usage.snap_count u; Usage.totalSnaps u]
        end in
      (playingTime, snapsPlayed)
  end.

(** Lines 188-193: [recruitingRank] as read from the chosen recruiting row. *)
Definition recruitingSignal (playerRecruiting : option Recruit.t) : option num :=
  match playerRecruiting with
  | None => None
  | Some p =>
      normalizeRecruitingRating
        (orNum
           (pickNum [Recruit.rating p; Recruit.rank p; Recruit.overall p])
           (if negb (isNullish (Recruit.stars p))
            then Some (Number (Recruit.stars p) / lit 5)%js
            else None))
  end.

(** Lines 195-207: [distance] is the option when it is not nullish, else
    the home-state heuristic when the chosen roster row names a hometown. *)
Definition distanceSignal (distanceFromHighSchoolMiles : value)
    (playerRoster : option Roster.t) (team : string) : value :=
  match playerRoster with
  | Some p =>
      if isNullish distanceFromHighSchoolMiles
      then
        match pickStr [Roster.hometown p; Roster.home_town p; Roster.city p] with
        | Some hometown =>
            let teamState := inferTeamState team in
            let hometownState := String.substring 0 2 (trim (lastPiece hometown)) in
            if truthy teamState && negb (String.eqb hometownState "")
               && String.eqb (toUpperCase (or_empty teamState)) (toUpperCase hometownState)
            then VNum (lit 100)
            else VNum STATE_DISTANCE_APPROXIMATE_MILES
        | None => distanceFromHighSchoolMiles
        end
      else distanceFromHighSchoolMiles
  | None => distanceFromHighSchoolMiles
  end.

(** Lines 120-224: the part of [aggregatePlayerInput] after the two guards,
    where [team] is a text that is not blank. *)
Definition aggregateFor (api : Api) (year : num) (team : string)
    (playerName : option string)
    (distanceFromHighSchoolMiles nilScore socialSentiment : value) : Out.t :=
  let usageList := catchEmpty (getPlayerUsage api year team) in
  let roster := catchEmpty (getRoster api team year) in
  let recruiting := catchEmpty (getRecruitingPlayers api year team) in
  let records := catchEmpty (getTeamRecords api year team) in
  let winRate := winRateFromRecords records year team in
  let winRate :=
    if bool_decide (winRate = lit 0.5) then getWinRate api year team else winRate in
  let playerUsage :=
    selectRow (λ p, pickStr [Usage.player p; Usage.name p]) playerName usageList in
  let playerRecruiting :=
    selectRow (λ p, pickStr [Recruit.name p; Recruit.player p]) playerName recruiting in
  let playerRoster :=
    selectRow (λ p, pickStr [Roster.name p; Roster.player p]) playerName roster in
  let '(playingTime, snapsPlayed) := usageSignals playerUsage in
  let recruitingRank := recruitingSignal playerRecruiting in
  let distance := distanceSignal distanceFromHighSchoolMiles playerRoster team in
  let displayName :=
    match playerUsage ≫= (λ p, pickStr [Usage.player p; Usage.name p]) with
    | Some n => Some n
    | None =>
        match playerRoster ≫= (λ p, pickStr [Roster.name p; Roster.player p]) with
        | Some n => Some n
        | None => playerName
        end
    end in
  {| Out.playingTime := orUndefined playingTime;
     Out.distanceFromHighSchoolMiles := distance;
     Out.recruitingRank := orUndefined recruitingRank;
     Out.teamWinRate := VNum winRate;
     Out.nilScore := nullish_or nilScore VUndefined;
     Out.snapsPlayed := orUndefined snapsPlayed;
     Out.socialSentiment := nullish_or socialSentiment VUndefined;
     Out._meta :=
       {| Meta.playerName := displayName; Meta.team := team; Meta.year := year |} |}.

(** [aggregatePlayerInput(opts)], lines 103-225. *)
Definition aggregatePlayerInput (api : Api) (opts : Opts.t) : outcome Out.t :=
  let year := Opts.year opts in
  let resolution : outcome (option string * option string) :=
    if blank (Opts.team opts) && truthy (Opts.playerName opts)
    then
      match resolvePlayerByName api year (Opts.playerName opts) with
      | Throws e => Throws e
      | Resolves (Some resolved) =>
          Resolves (Some (Resolved.team resolved), Some (Resolved.name resolved))
      | Resolves None => Throws (ResolutionError (or_empty (Opts.playerName opts)))
      end
    else Resolves (Opts.team opts, Opts.playerName opts) in
  match resolution with
  | Throws e => Throws e
  | Resolves (team, playerName) =>
      if blank team then Throws InputError
      else
        Resolves
          (aggregateFor api year (or_empty team) playerName
             (Opts.distanceFromHighSchoolMiles opts) (Opts.nilScore opts)
             (Opts.socialSentiment opts))
  end.

End Aggregator.

(** ** The command line: [src/index.js], lines 64-65 *)

Module Cli.

Import Aggregator.

(** The aggregated object as the Scorer reads it: the seven signals by
    name; it has no [weights] property, and [_meta] is not read. *)
Definition asSignalRecord (input : Out.t) : Scorer.SignalRecord :=
  {| Scorer.playingTime := Out.playingTime input;
     Scorer.distanceFromHighSchoolMiles := Out.distanceFromHighSchoolMiles input;
     Scorer.recruitingRank := Out.recruitingRank input;
     Scorer.teamWinRate := Out.teamWinRate input;
     Scorer.nilScore := Out.nilScore input;
     Scorer.snapsPlayed := Out.snapsPlayed input;
     Scorer.socialSentiment := Out.socialSentiment input;
     Scorer.weights := None |}.

(** [const input = await aggregatePlayerInput(opts);
     const result = computeTransferProbability(input);] *)
Definition score (api : Api) (opts : Opts.t) : outcome Scorer.Result :=
  match aggregatePlayerInput api opts with
  | Resolves input => Resolves (Scorer.computeTransferProbability (asSignalRecord input) ∅)
  | Throws e => Throws e
  end.

End Cli.

(* ================================================================== *)
(** * Vocabulary of the properties

    Definitions that the statements below use: predicates on values, the
    formulas as the specification words them, and the concrete inputs of
    the examples. *)

Module ScorerSpec.

Import Scorer.

(** [o[key]] on an object kept as its ordered list of properties. *)
Definition prop {A} (o : list (string * A)) (key : string) : option A :=
  (list_to_map o : gmap string A) !! key.

(** [0 <= x && x <= 1] *)
Definition inUnit (x : num) : bool := leb (lit 0) x && leb x (lit 1).

(** A signal that is absent, or that [Number] reads as a number other than
    [NaN]. *)
Definition numericOrAbsent (v : value) : bool :=
  isNullish v || negb (isNaN (Number v)).


(** The first of two lookups that finds the key. *)
Definition firstDefined {A} (a b : option A) : option A :=
  match a with Some _ => a | None => b end.

(** The record's embedded weights, [{}] when it has none. *)
Definition embeddedWeights (input : SignalRecord) : weightMap :=
  default ∅ (weights input).

(** The record with its [weights] property replaced. *)
Definition setWeights (input : SignalRecord) (m : option weightMap) : SignalRecord :=
  {| playingTime := playingTime input;
     distanceFromHighSchoolMiles := distanceFromHighSchoolMiles input;
     recruitingRank := recruitingRank input;
     teamWinRate := teamWinRate input;
     nilScore := nilScore input;
     snapsPlayed := snapsPlayed input;
     socialSentiment := socialSentiment input;
     weights := m |}.

(** A factor carries weight when its effective weight is strictly positive. *)
Definition carriesWeight (w : weightMap) (key : string) : bool :=
  match get w key with Some n => gtb n (lit 0) | None => false end.

Definition contributing (w : weightMap) (fs : list (string * num)) : list (string * num) :=
  List.filter (λ e, carriesWeight w e.1) fs.

(** The sum of a list of numbers, from the left. *)
Definition total (l : list num) : num := foldl add (lit 0) l.

(** Rounding to a grid of [1 / unitsPerOne]: one decimal is [roundTo 10],
    two decimals is [roundTo 100]. *)
Definition roundTo (unitsPerOne : Q) (x : num) : num :=
  (Math_round (x * lit unitsPerOne) / lit unitsPerOne)%js.


(** The breakdown entry as the specification words it. *)
Definition reportedEntry (w : weightMap) (factor : string * num) : string * BreakdownEntry :=
  (factor.1,
   {| risk := roundTo 100 factor.2;
      weight := getOrZero w factor.1;
      contribution := roundTo 100 (getOrZero w factor.1 * factor.2)%js |}).

(** The recruiting formula as the specification words it, without clamping. *)
Definition statedNormalizedRank (rank : num) : num :=
  if leb rank (lit 1) then rank else (rank / lit 100)%js.

Definition statedNormalizedPlayingTime (playingTime : value) : num :=
  if isNullish playingTime then lit 0.5 else Number playingTime.

Definition statedRecruitingRisk (rank : num) (playingTime : value) : num :=
  (statedNormalizedRank rank * (lit 1 - statedNormalizedPlayingTime playingTime))%js.

(** [Math.max(0, Math.min(1, x))] *)
Definition clampUnit (x : num) : num := Math_max (lit 0) (Math_min (lit 1) x).

(** The recruiting formula with both terms clamped to the unit interval. *)
Definition clampedRecruitingRisk (rank : num) (playingTime : value) : num :=
  (clampUnit (statedNormalizedRank rank)
   * (lit 1 - (if isNullish playingTime then lit 0.5
               else clampUnit (Number playingTime))))%js.

(** [{ recruitingRank: rank, playingTime: playingTime }] *)
Definition recruitOnly (rank playingTime : value) : SignalRecord :=
  mkSignalRecord playingTime VUndefined rank VUndefined VUndefined VUndefined
    VUndefined None.

(** [{ nilScore: v }]: [nilOnly (VNum NaN)] is what the command line passes
    on after [--nil=abc], [nilOnly (VOther NaN)] is [{ nilScore: "abc" }]. *)
Definition nilOnly (v : value) : SignalRecord :=
  mkSignalRecord VUndefined VUndefined VUndefined VUndefined v
    VUndefined VUndefined None.

(** The two extreme records of the specification's examples. *)
Definition lowestRisk : SignalRecord :=
  mkSignalRecord (VNum (lit 1)) (VNum (lit 0)) (VNum (lit 0)) (VNum (lit 1))
    (VNum (lit 1)) (VNum (lit 800)) (VNum (lit 0)) None.

Definition highestRisk : SignalRecord :=
  mkSignalRecord (VNum (lit 0)) (VNum (lit 1500)) (VNum (lit 1)) (VNum (lit 0))
    (VNum (lit 0)) (VNum (lit 0)) (VNum (lit 1)) None.

End ScorerSpec.

Module AggregatorSpec.

Import Text Aggregator.




(** A player name without a team. *)
Definition nameWithoutTeam (opts : Opts.t) : bool :=
  blank (Opts.team opts) && truthy (Opts.playerName opts).

(** The answer of the name search for the player name of the options. *)
Definition searchAnswer (api : Api) (opts : Opts.t) : fetched Candidate.t :=
  searchPlayers api (Opts.year opts) (trim (or_empty (Opts.playerName opts))).






(** An option that was passed: neither [undefined] nor [null]. *)
Definition present (v : value) : Prop := isNullish v = false.

(** The override rule as the specification words it, for all seven signals. *)
Definition overridesWin (opts : Opts.t) (out : Out.t) : Prop :=
  (present (Opts.nilScore opts) → Out.nilScore out = Opts.nilScore opts)
  ∧ (present (Opts.socialSentiment opts) →
     Out.socialSentiment out = Opts.socialSentiment opts)
  ∧ (present (Opts.distanceFromHighSchoolMiles opts) →
     Out.distanceFromHighSchoolMiles out = Opts.distanceFromHighSchoolMiles opts)
  ∧ (present (Opts.playingTime opts) → Out.playingTime out = Opts.playingTime opts)
  ∧ (present (Opts.teamWinRate opts) → Out.teamWinRate out = Opts.teamWinRate opts)
  ∧ (present (Opts.recruitingRank opts) →
     Out.recruitingRank out = Opts.recruitingRank opts)
  ∧ (present (Opts.snapsPlayed opts) → Out.snapsPlayed out = Opts.snapsPlayed opts).

(** The options with the four signals that the destructuring does not name
    replaced. *)
Definition withRawSignals (opts : Opts.t)
    (playingTime teamWinRate recruitingRank snapsPlayed : value) : Opts.t :=
  {| Opts.year := Opts.year opts;
     Opts.team := Opts.team opts;
     Opts.playerName := Opts.playerName opts;
     Opts.distanceFromHighSchoolMiles := Opts.distanceFromHighSchoolMiles opts;
     Opts.nilScore := Opts.nilScore opts;
     Opts.socialSentiment := Opts.socialSentiment opts;
     Opts.playingTime := playingTime;
     Opts.teamWinRate := teamWinRate;
     Opts.recruitingRank := recruitingRank;
     Opts.snapsPlayed := snapsPlayed |}.

(** A source that answers the name search with [rows] and rejects every
    other query. *)
Definition onlySearch (rows : list Candidate.t) : Api :=
  {| searchPlayers _ _ := Returned rows;
     getPlayerUsage _ _ := Failed "offline";
     getRoster _ _ := Failed "offline";
     getRecruitingPlayers _ _ := Failed "offline";
     getTeamRecords _ _ := Failed "offline";
     getTeamGames _ _ _ := Failed "offline" |}.

(** The options that [parseArgs] builds from [--team=Alabama --nil=abc]:
    [nilScore] is [Number("abc")]. *)
Definition alabamaNilAbc (year : num) : Opts.t :=
  Opts.make year (Some "Alabama") None VUndefined (VNum NaN) VUndefined
    VUndefined VUndefined VUndefined VUndefined.



(** Two candidates: the exact match has no team, the longer name has one. *)
Definition namesakes : list Candidate.t :=
  [ Candidate.make (Some "Bo Nix") None None None;
    Candidate.make (Some "Bo Nix Jr") None (Some "Oregon") None ].


(** A source with one usage, roster, recruiting and season row for
    Ohio State: usage 35 (percent), 120 snaps, four stars, nine wins and
    three losses, hometown in Ohio. *)
Definition buckeyes : Api :=
  {| searchPlayers _ _ := Failed "offline";
     getPlayerUsage _ _ :=
       Returned [ Usage.make (Some "Ann Lee") None (VNum (lit 35)) VUndefined VUndefined
                    VUndefined Usage.NoSnapCounts (VNum (lit 120)) VUndefined VUndefined ];
     getRoster _ _ :=
       Returned [ Roster.make (Some "Ann Lee") None (Some "Columbus, OH") None None ];
     getRecruitingPlayers _ _ :=
       Returned [ Recruit.make (Some "Ann Lee") None VNull VNull VNull (VNum (lit 4)) ];
     getTeamRecords _ _ :=
       Returned [ Season.make (Some (lit 2024)) None (Some "Ohio State")
                    (Some (Season.makeTally None (Some (lit 9)) None (Some (lit 3))
                             None None))
                    (Season.makeTally None None None None None None) ];
     getTeamGames _ _ _ := Failed "offline" |}.

(** Options that pass all seven signals. *)
Definition everyOverride : Opts.t :=
  Opts.make (lit 2024) (Some "Ohio State") (Some "Ann Lee")
    (VNum (lit 900)) (VNum (lit 0.4)) (VNum (lit 0.6))
    (VNum (lit 0.9)) (VNum (lit 0.3)) (VNum (lit 0.5)) (VNum (lit 640)).

End AggregatorSpec.

(* ================================================================== *)
(** * Vocabulary of the further properties *)

Module ScorerTerms.

Import Scorer ScorerSpec.

(** Every signal of the record is absent or reads as a number. *)
Definition wellFormed (input : SignalRecord) : bool :=
  numericOrAbsent (playingTime input)
  && numericOrAbsent (distanceFromHighSchoolMiles input)
  && numericOrAbsent (recruitingRank input)
  && numericOrAbsent (teamWinRate input)
  && numericOrAbsent (nilScore input)
  && numericOrAbsent (snapsPlayed input)
  && numericOrAbsent (socialSentiment input).

(** No factor is weighted [Infinity]. *)
Definition finiteWeights (w : weightMap) : bool :=
  forallb (λ key, negb (bool_decide (get w key = Some PosInf))) FACTOR_KEYS.

(** No factor carries weight: each weight is nullish, [NaN], zero or
    negative. *)
Definition allSwitchedOff (w : weightMap) : bool :=
  forallb (λ key, negb (carriesWeight w key)) FACTOR_KEYS.



(** Two values that the scorer cannot tell apart: both absent, or read by
    [Number] as the same number. *)
Definition sameReading (a b : value) : bool :=
  if isNullish a then isNullish b
  else negb (isNullish b) && bool_decide (Number a = Number b).

Definition sameReadings (a b : SignalRecord) : bool :=
  sameReading (playingTime a) (playingTime b)
  && sameReading (distanceFromHighSchoolMiles a) (distanceFromHighSchoolMiles b)
  && sameReading (recruitingRank a) (recruitingRank b)
  && sameReading (teamWinRate a) (teamWinRate b)
  && sameReading (nilScore a) (nilScore b)
  && sameReading (snapsPlayed a) (snapsPlayed b)
  && sameReading (socialSentiment a) (socialSentiment b).

End ScorerTerms.

Module AggregatorTerms.

Import Text Aggregator.

Definition isInfinite (n : num) : bool :=
  match n with NegInf | PosInf => true | _ => false end.

Definition finiteOrAbsent (n : option num) : bool :=
  match n with Some (Fin _) | None => true | _ => false end.

(** A tally whose counts, where present, are finite numbers. *)
Definition finiteTally (t : Season.tally) : bool :=
  finiteOrAbsent (Season.total_wins t) && finiteOrAbsent (Season.wins t)
  && finiteOrAbsent (Season.total_losses t) && finiteOrAbsent (Season.losses t)
  && finiteOrAbsent (Season.total_games t) && finiteOrAbsent (Season.games t).

Definition finiteSeason (r : Season.t) : bool :=
  finiteTally (Season.own r)
  && match Season.total r with Some t => finiteTally t | None => true end.




(** A usage row whose array of snap counts holds no infinite entry. *)
Definition finiteCounts (u : Usage.t) : bool :=
  match Usage.snap_counts u with
  | Usage.SnapArray arr => forallb (λ b, negb (isInfinite (Number b))) arr
  | _ => true
  end.

(** The rows that the source returns for a team and a year carry finite
    tallies and snap counts. *)
Definition finiteRows (api : Api) (year : num) (team : string) : bool :=
  forallb finiteSeason (catchEmpty (getTeamRecords api year team))
  && forallb finiteCounts (catchEmpty (getPlayerUsage api year team)).

(** The three options that [aggregatePlayerInput] reads as overrides are
    each absent or numeric. *)
Definition numericOverrides (opts : Opts.t) : bool :=
  ScorerSpec.numericOrAbsent (Opts.distanceFromHighSchoolMiles opts)
  && ScorerSpec.numericOrAbsent (Opts.nilScore opts)
  && ScorerSpec.numericOrAbsent (Opts.socialSentiment opts).

(** None of the three overrides is passed. *)
Definition noOverrides (opts : Opts.t) : bool :=
  isNullish (Opts.distanceFromHighSchoolMiles opts)
  && isNullish (Opts.nilScore opts)
  && isNullish (Opts.socialSentiment opts).

(** Every data query for the team and the year fails or returns no row. *)
Definition noData (api : Api) (year : num) (team : string) : bool :=
  bool_decide (catchEmpty (getPlayerUsage api year team) = [])
  && bool_decide (catchEmpty (getRoster api team year) = [])
  && bool_decide (catchEmpty (getRecruitingPlayers api year team) = [])
  && bool_decide (catchEmpty (getTeamRecords api year team) = [])
  && bool_decide (catchEmpty (getTeamGames api year team "regular") = []).

End AggregatorTerms.

(** ** The HTTP interface: [src/server.js], the score requests

    A request body is the object that [JSON.parse] returns, typed as the
    handler and the Aggregator read it: [team] and [playerName] are texts
    ([None] when missing or [null]); [year] is [Number(year)], bodies
    without a year are not represented; the three named signals are
    [VUndefined] when the key is missing; each of the other signals is
    [None] when its key is missing and [Some v] when it is present, [null]
    included, since spreading copies a key whatever it holds; [weights] is
    [None] when missing or [null].  Keys that neither the Aggregator nor the
    Scorer reads are not represented, nor is the serialization of the
    reply. *)

Module Server.

Import Text Aggregator.

Module Body.
Record t : Type := make {
  year : num;
  team : option string;
  playerName : option string;
  distanceFromHighSchoolMiles : value;
  nilScore : value;
  socialSentiment : value;
  playingTime : option value;
  teamWinRate : option value;
  recruitingRank : option value;
  snapsPlayed : option value;
  weights : option Scorer.weightMap
}.
End Body.

(** What the handler answers: status 200 with the result alone, status 200
    with the scored input, its [_meta] and the result, or status 500 with
    the message of the error. *)
Inductive reply : Type :=
  | Direct (result : Scorer.Result)
  | Aggregated (merged : Scorer.SignalRecord) (meta : Meta.t) (result : Scorer.Result)
  | ServerError (e : error).

(** [input[key]] for a key of [rest]. *)
Definition read (v : option value) : value := default VUndefined v.

(** [input[key] != null] for a key of [rest]. *)
Definition given (v : option value) : bool := negb (isNullish (read v)).

(** Line 74:
    [(input.team && String(input.team).trim())
     || (input.playerName && String(input.playerName).trim())]. *)
Definition hasLookup (body : Body.t) : bool :=
  negb (blank (Body.team body)) || negb (blank (Body.playerName body)).

(** Line 75. *)
Definition hasRawScore (body : Body.t) : bool :=
  given (Body.playingTime body) || given (Body.teamWinRate body)
  || given (Body.recruitingRank body).

(** Lines 71-73: [input], as [aggregatePlayerInput] reads it. *)
Definition asOpts (body : Body.t) : Opts.t :=
  {| Opts.year := Body.year body;
     Opts.team := Body.team body;
     Opts.playerName := Body.playerName body;
     Opts.distanceFromHighSchoolMiles := Body.distanceFromHighSchoolMiles body;
     Opts.nilScore := Body.nilScore body;
     Opts.socialSentiment := Body.socialSentiment body;
     Opts.playingTime := read (Body.playingTime body);
     Opts.teamWinRate := read (Body.teamWinRate body);
     Opts.recruitingRank := read (Body.recruitingRank body);
     Opts.snapsPlayed := read (Body.snapsPlayed body) |}.

(** Lines 71-73: [input], as [computeTransferProbability] reads it. *)
Definition asSignals (body : Body.t) : Scorer.SignalRecord :=
  {| Scorer.playingTime := read (Body.playingTime body);
     Scorer.distanceFromHighSchoolMiles := Body.distanceFromHighSchoolMiles body;
     Scorer.recruitingRank := read (Body.recruitingRank body);
     Scorer.teamWinRate := read (Body.teamWinRate body);
     Scorer.nilScore := Body.nilScore body;
     Scorer.snapsPlayed := read (Body.snapsPlayed body);
     Scorer.socialSentiment := Body.socialSentiment body;
     Scorer.weights := Body.weights body |}.

(** [{ ...aggregated, ...input }[key]] for a key of [rest]: the key of
    [input] when it has one. *)
Definition spreadOver (aggregated : value) (v : option value) : value :=
  match v with
  | Some x => x
  | None => aggregated
  end.

(** Lines 84-85: [merged = { ...aggregated, ...input }] without [_meta].
    The object literal of line 72 gives [input] the three named signals as
    own keys even when the body lacks them, so they always come from
    [input]. *)
Definition merge (aggregated : Out.t) (body : Body.t) : Scorer.SignalRecord :=
  {| Scorer.playingTime := spreadOver (Out.playingTime aggregated) (Body.playingTime body);
     Scorer.distanceFromHighSchoolMiles := Body.distanceFromHighSchoolMiles body;
     Scorer.recruitingRank :=
       spreadOver (Out.recruitingRank aggregated) (Body.recruitingRank body);
     Scorer.teamWinRate := spreadOver (Out.teamWinRate aggregated) (Body.teamWinRate body);
     Scorer.nilScore := Body.nilScore body;
     Scorer.snapsPlayed := spreadOver (Out.snapsPlayed aggregated) (Body.snapsPlayed body);
     Scorer.socialSentiment := Body.socialSentiment body;
     Scorer.weights := Body.weights body |}.

(** [handleRequest] for [POST /score] and [POST /api/score], lines 58-95,
    after the body is parsed. *)
Definition scorePost (api : Api) (body : Body.t) : reply :=
  if negb (hasLookup body) && hasRawScore body
  then Direct (Scorer.computeTransferProbability (asSignals body) ∅)
  else
    match aggregatePlayerInput api (asOpts body) with
    | Resolves aggregated =>
        let merged := merge aggregated body in
        Aggregated merged (Out._meta aggregated)
          (Scorer.computeTransferProbability merged ∅)
    | Throws e => ServerError e
    end.

(** [handleRequest] for [GET /?team=...], lines 41-56, given [Number(year)]
    and the [team] and [player] parameters of the query. *)
Definition scoreGet (api : Api) (year : num) (team : string) (player : option string)
  : reply :=
  let opts :=
    {| Opts.year := year;
       Opts.team := Some team;
       Opts.playerName := if truthy player then player else None;
       Opts.distanceFromHighSchoolMiles := VUndefined;
       Opts.nilScore := VUndefined;
       Opts.socialSentiment := VUndefined;
       Opts.playingTime := VUndefined;
       Opts.teamWinRate := VUndefined;
       Opts.recruitingRank := VUndefined;
       Opts.snapsPlayed := VUndefined |} in
  match aggregatePlayerInput api opts with
  | Resolves input =>
      Aggregated (Cli.asSignalRecord input) (Out._meta input)
        (Scorer.computeTransferProbability (Cli.asSignalRecord input) ∅)
  | Throws e => ServerError e
  end.

(** The body [{ year, team, playerName }] of a request that names a lookup
    and nothing else. *)
Definition lookupOnly (year : num) (team : string) (player : option string) : Body.t :=
  {| Body.year := year;
     Body.team := Some team;
     Body.playerName := player;
     Body.distanceFromHighSchoolMiles := VUndefined;
     Body.nilScore := VUndefined;
     Body.socialSentiment := VUndefined;
     Body.playingTime := None;
     Body.teamWinRate := None;
     Body.recruitingRank := None;
     Body.snapsPlayed := None;
     Body.weights := None |}.

End Server.

(** ** The command line: [src/index.js], [main]

    [main] on the options object that [parseArgs] returns; the parsing of
    [process.argv] is not represented. *)

Module CommandLine.

Import Text Aggregator.



End CommandLine.

(* ================================================================== *)
(** * Properties *)

(** Closed goals are settled by evaluation through their decision
    procedure. *)
Ltac by_computation :=
  cbv zeta; apply (bool_decide_unpack _); vm_compute; exact I.

(** ** Numbers *)

Module NumFacts.

Import ScorerSpec.

(** Goals on [Qc] are moved to [Q], where [lra] and [nra] work. *)
Ltac qc_unfold :=
  repeat (progress (unfold Qcle, Qclt, Qcminus, Qcplus, Qcopp, Qcmult, Qcdiv,
                      Qcinv, Q2Qc in *; cbn [this] in *));
  rewrite ?Qred_correct in *; cbn [Qinv Qnum Qden] in *.

Ltac qc_lra := first [ apply Qc_is_canon | idtac ]; qc_unfold; lra.
Ltac qc_nra := first [ apply Qc_is_canon | idtac ]; qc_unfold; nra.

(** Order goals that follow from the comparisons in the context. *)
Ltac qc_order :=
  repeat match goal with
  | H : ¬ (_ < _) |- _ => apply Qcnot_lt_le in H
  | H : bool_decide _ = true |- _ => rewrite bool_decide_eq_true in H
  | H : bool_decide _ = false |- _ => rewrite bool_decide_eq_false in H
  | H : Fin _ = Fin _ |- _ => injection H as ->
  end;
  solve [ done | by apply Qclt_le_weak
        | apply Qcle_antisym; solve [done | by apply Qclt_le_weak | by etrans ]
        | exfalso; eapply Qclt_not_le; solve [ eauto | eapply Qclt_le_trans; eauto ] ].


Lemma add_comm (x y : num) : (x + y = y + x)%js.
Proof.
  destruct x as [| |a|], y as [| |b|]; cbn; try done. by rewrite Qcplus_comm.
Qed.

Lemma add_assoc (x y z : num) : (x + (y + z) = x + y + z)%js.
Proof.
  destruct x as [| |a|], y as [| |b|], z as [| |c|]; cbn; try done.
  by rewrite Qcplus_assoc.
Qed.

(** The order of the summands does not matter to a sum. *)
Lemma foldl_add_permutation (a : num) (l l' : list num) :
  l ≡ₚ l' → foldl add a l = foldl add a l'.
Proof.
  intros Hl. revert a. induction Hl as [|x l l' _ IH|x y l|l l' l'' _ IH1 _ IH2];
    intros a; cbn; [done|apply IH| |by rewrite IH1].
  f_equal. by rewrite <- !add_assoc, (add_comm x y).
Qed.

Lemma total_permutation (l l' : list num) : l ≡ₚ l' → total l = total l'.
Proof. apply foldl_add_permutation. Qed.

Lemma Qcminus_0 (q : Qc) : q + - Q2Qc 0 = q.
Proof. ring. Qed.

Lemma Qcdiv_unit (q hi : Qc) :
  0 < hi → 0 ≤ q → q ≤ hi → 0 ≤ q / hi ∧ q / hi ≤ 1.
Proof.
  intros Hhi H0 H1. unfold Qcdiv. split.
  - apply Qcmult_nonneg_nonneg; [done|]. by apply Qclt_le_weak, Qcinv_pos.
  - rewrite <- (Qcmult_inv_r hi) by (by apply Qclt_not_eq in Hhi).
    apply Qcmult_le_mono_nonneg_r; [|done]. by apply Qclt_le_weak, Qcinv_pos.
Qed.

(** [Math.max(lo, Math.min(hi, n))] on a number that is not [NaN]: a finite
    value between the bounds, equal to a bound at and beyond it, and to [n]
    in between. *)
Lemma clamp_spec (lo hi : Qc) (n : num) :
  lo ≤ hi → isNaN n = false →
  ∃ q, Math_max (Fin lo) (Math_min (Fin hi) n) = Fin q ∧ lo ≤ q ∧ q ≤ hi
       ∧ (leb n (Fin lo) = true → q = lo)
       ∧ (leb (Fin hi) n = true → q = hi)
       ∧ (∀ a, n = Fin a → lo ≤ a → a ≤ hi → q = a).
Proof.
  intros Hlh Hn. destruct n as [| |a|]; try done; cbn.
  - exists lo. repeat split; intros; try done; qc_order.
  - case_bool_decide as H1; cbn; case_bool_decide as H2;
      eexists; (split; [reflexivity|]); repeat split; intros; try qc_order.
  - case_bool_decide as H1; eexists; (split; [reflexivity|]);
      repeat split; intros; try qc_order.
Qed.

Lemma unit_bounds : Q2Qc 0 ≤ Q2Qc 1.
Proof. done. Qed.

Lemma inUnit_Fin (q : Qc) : inUnit (Fin q) = true ↔ 0 ≤ q ∧ q ≤ 1.
Proof.
  unfold inUnit, lit; cbn.
  by rewrite andb_true_iff, !bool_decide_eq_true.
Qed.

Lemma one_minus_unit (q : Qc) : 0 ≤ q → q ≤ 1 → inUnit (lit 1 - Fin q)%js = true.
Proof. intros. apply inUnit_Fin. split; qc_lra. Qed.

Lemma max0_not_NaN (n : num) : isNaN n = false → isNaN (Math_max (lit 0) n) = false.
Proof. destruct n; cbn; try done. by case_bool_decide. Qed.

Lemma max0_ge (n : num) (hi : Qc) :
  leb (Fin hi) n = true → leb (Fin hi) (Math_max (lit 0) n) = true.
Proof.
  destruct n as [| |a|]; cbn; try done.
  rewrite bool_decide_eq_true. intros Hle. case_bool_decide as Ha; cbn.
  - by apply bool_decide_eq_true.
  - apply bool_decide_eq_true. apply Qcnot_lt_le in Ha. by trans a.
Qed.




(** [roundTo units] lands on the grid of [1 / units], at the point nearest
    to its argument, a half going up: with [k] the numerator,
    [k <= q * units + 1/2 < k + 1]. *)
Lemma floor_half_bounds (x : Qc) :
  let k := Qfloor (this x + this (Q2Qc (1 # 2)))%Q in
  Qc_of_Z k ≤ x + Q2Qc (1 # 2) ∧ x + Q2Qc (1 # 2) < Qc_of_Z k + 1.
Proof.
  intros k. subst k.
  assert (this (x + Q2Qc (1 # 2)) == this x + this (Q2Qc (1 # 2)))%Q as E.
  { unfold Qcplus at 1. unfold Q2Qc at 1. cbn [this]. apply Qred_correct. }
  split.
  - unfold Qcle. rewrite E. unfold Qc_of_Z. cbn [this]. apply Qfloor_le.
  - unfold Qclt. rewrite E.
    assert (this (Qc_of_Z (Qfloor (this x + this (Q2Qc (1 # 2)))%Q) + 1)
            == inject_Z (Qfloor (this x + this (Q2Qc (1 # 2)))%Q + 1))%Q as ->.
    { unfold Qcplus at 1. unfold Q2Qc at 1. cbn [this]. rewrite Qred_correct.
      unfold Qc_of_Z. cbn [this]. by rewrite inject_Z_plus. }
    apply Qlt_floor.
Qed.

Lemma roundTo_nearest (units : positive) (q : Qc) :
  ∃ k : Z,
    roundTo (Zpos units # 1) (Fin q) = Fin (Qc_of_Z k / Q2Qc (Zpos units # 1))
    ∧ Qc_of_Z k ≤ q * Q2Qc (Zpos units # 1) + Q2Qc (1 # 2)
    ∧ q * Q2Qc (Zpos units # 1) + Q2Qc (1 # 2) < Qc_of_Z k + 1.
Proof.
  exists (Qfloor (this (q * Q2Qc (Zpos units # 1))%Qc + this (Q2Qc (1 # 2)))%Q).
  split; [|apply floor_half_bounds].
  unfold roundTo, lit. cbn [mul Math_round div].
  destruct (decide (Q2Qc (Zpos units # 1) = 0)) as [E|_]; [|done].
  apply (f_equal this) in E. unfold Q2Qc in E. cbn [this] in E.
  pose proof (Qred_correct (Zpos units # 1)) as H. rewrite E in H.
  unfold Qeq in H. vm_compute in H. discriminate.
Qed.

Lemma round_fifty : roundTo 10 (lit 50) = lit 50.
Proof. by_computation. Qed.

(** Zero times a finite number rounds to zero. *)
Lemma round_zero_times (q : Qc) : roundTo 100 (lit 0 * Fin q)%js = lit 0.
Proof.
  unfold roundTo, lit. cbn [mul]. rewrite Qcmult_0_l. by_computation.
Qed.

End NumFacts.

(** ** The Scorer *)

Module ScorerProofs.

Import Scorer ScorerSpec NumFacts.

(** *** Ranges of the risk functions *)

Lemma factors_computed (input : SignalRecord) (ws : weightMap) :
  factors (computeTransferProbability input ws) = computeFactors input.
Proof. unfold computeTransferProbability. by destruct (foldl _ _ _). Qed.

Lemma numeric_present (v : value) :
  numericOrAbsent v = true → isNullish v = false → isNaN (Number v) = false.
Proof.
  unfold numericOrAbsent. intros H E. rewrite E in H. by apply negb_true_iff.
Qed.

Lemma normalize_spec (hi : Qc) (n : num) :
  0 < hi → isNaN n = false →
  ∃ q, normalize (VNum n) (lit 0) (Fin hi) = Fin q ∧ 0 ≤ q ∧ q ≤ 1
       ∧ (leb (Fin hi) n = true → q = 1)
       ∧ (leb n (lit 0) = true → q = 0).
Proof.
  intros Hhi Hn. unfold normalize, lit. cbn [isNullish Number orb]. rewrite Hn.
  destruct (clamp_spec (Q2Qc 0) hi n (Qclt_le_weak _ _ Hhi) Hn)
    as (q & -> & ? & ? & Hlo & Hup & _).
  assert (hi ≠ 0) as Hne by (by apply not_eq_sym, Qclt_not_eq).
  cbn. rewrite !Qcminus_0. unfold or_else. cbn.
  rewrite bool_decide_eq_false_2 by done. destruct (decide (hi = Q2Qc 0)); [done|].
  destruct (Qcdiv_unit q hi) as [? ?]; try done.
  eexists; split; [reflexivity|]. repeat split; try done.
  - intros Hge. rewrite Hup by done. unfold Qcdiv. by rewrite Qcmult_inv_r.
  - intros Hle. rewrite Hlo by done. unfold Qcdiv. by rewrite Qcmult_0_l.
Qed.

Lemma riskFromPlayingTime_unit (v : value) :
  numericOrAbsent v = true → inUnit (riskFromPlayingTime v) = true.
Proof.
  intros Hv. unfold riskFromPlayingTime, lit. destruct (isNullish v) eqn:E; [done|].
  destruct (clamp_spec (Q2Qc 0) (Q2Qc 1) (Number v) unit_bounds (numeric_present _ Hv E))
    as (q & -> & ? & ? & _).
  by apply one_minus_unit.
Qed.

Lemma riskFromDistance_spec (v : value) :
  numericOrAbsent v = true →
  inUnit (riskFromDistance v) = true
  ∧ (isNullish v = false → leb (lit 1500) (Number v) = true →
     riskFromDistance v = lit 1).
Proof.
  intros Hv. unfold riskFromDistance. destruct (isNullish v) eqn:E; [done|].
  pose proof (numeric_present _ Hv E) as Hn.
  destruct (normalize_spec (Q2Qc 1500) (Math_max (lit 0) (Number v)))
    as (q & Hq & ? & ? & Hup & _); [done|by apply max0_not_NaN|].
  unfold lit in *. rewrite Hq. split; [by apply inUnit_Fin|].
  intros _ Hge. f_equal. apply Hup. by apply max0_ge.
Qed.

Lemma riskFromSnaps_unit (v : value) :
  numericOrAbsent v = true → inUnit (riskFromSnaps v (lit 800)) = true.
Proof.
  intros Hv. unfold riskFromSnaps. destruct (isNullish v) eqn:E; [done|].
  pose proof (numeric_present _ Hv E) as Hn.
  destruct (normalize_spec (Q2Qc 800) (Math_max (lit 0) (Number v)))
    as (q & Hq & ? & ? & _); [done|by apply max0_not_NaN|].
  unfold lit in *. rewrite Hq. by apply one_minus_unit.
Qed.

Lemma riskFromTeamPerformance_unit (v : value) :
  numericOrAbsent v = true → inUnit (riskFromTeamPerformance v) = true.
Proof.
  intros Hv. unfold riskFromTeamPerformance, lit. destruct (isNullish v) eqn:E; [done|].
  destruct (clamp_spec (Q2Qc 0) (Q2Qc 1) (Number v) unit_bounds (numeric_present _ Hv E))
    as (q & -> & ? & ? & _).
  by apply one_minus_unit.
Qed.

Lemma riskFromNIL_spec (v : value) :
  numericOrAbsent v = true →
  inUnit (riskFromNIL v) = true
  ∧ (isNullish v = false → leb (Number v) (lit 0) = true → riskFromNIL v = lit 1).
Proof.
  intros Hv. unfold riskFromNIL, lit. destruct (isNullish v) eqn:E; [done|].
  destruct (clamp_spec (Q2Qc 0) (Q2Qc 1) (Number v) unit_bounds (numeric_present _ Hv E))
    as (q & -> & ? & ? & Hlo & _).
  split; [by apply one_minus_unit|]. intros _ Hle. rewrite Hlo by done.
  cbn. by rewrite Qcminus_0.
Qed.

Lemma riskFromSocial_unit (v : value) :
  numericOrAbsent v = true → inUnit (riskFromSocial v) = true.
Proof.
  intros Hv. unfold riskFromSocial, lit. destruct (isNullish v) eqn:E; [done|].
  destruct (clamp_spec (Q2Qc 0) (Q2Qc 1) (Number v) unit_bounds (numeric_present _ Hv E))
    as (q & -> & ? & ? & _).
  by apply inUnit_Fin.
Qed.

Lemma riskFromRecruiting_unit (r p : value) :
  numericOrAbsent r = true → numericOrAbsent p = true →
  inUnit (riskFromRecruiting r p) = true.
Proof.
  intros Hr Hp. unfold riskFromRecruiting, lit. destruct (isNullish r) eqn:E; [done|].
  destruct (clamp_spec (Q2Qc 0) (Q2Qc 1) (Number r) unit_bounds (numeric_present _ Hr E))
    as (q & -> & ? & ? & _).
  assert (∃ u, (if negb (isNullish p)
                then Math_max (Fin (Q2Qc 0)) (Math_min (Fin (Q2Qc 1)) (Number p))
                else Fin (Q2Qc 0.5)) = Fin u ∧ 0 ≤ u ∧ u ≤ 1) as (u & -> & ? & ?).
  { destruct (isNullish p) eqn:Ep; cbn [negb].
    - eexists; split; [reflexivity|]. split; qc_lra.
    - destruct (clamp_spec (Q2Qc 0) (Q2Qc 1) (Number p) unit_bounds
                  (numeric_present _ Hp Ep)) as (u & -> & ? & ? & _). eauto. }
  cbn. apply inUnit_Fin. split; qc_nra.
Qed.



(** The same at the level of a record: when each signal is absent or reads
    as a number other than NaN, every returned factor is in [0,1]. *)
Lemma normalized_rank_not_NaN (n : num) :
  isNaN n = false → isNaN (if leb n (lit 1) then n else (n / lit 100)%js) = false.
Proof.
  intros Hn. destruct (leb n (lit 1)); [done|].
  destruct n as [| |a|]; try done; cbn; by destruct (decide _).
Qed.

Lemma factors_stay_in_unit_interval (input : SignalRecord) (ws : weightMap) :
  numericOrAbsent (playingTime input) = true →
  numericOrAbsent (distanceFromHighSchoolMiles input) = true →
  numericOrAbsent (recruitingRank input) = true →
  numericOrAbsent (teamWinRate input) = true →
  numericOrAbsent (nilScore input) = true →
  numericOrAbsent (snapsPlayed input) = true →
  numericOrAbsent (socialSentiment input) = true →
  Forall (λ e, inUnit e.2 = true) (factors (computeTransferProbability input ws)).
Proof.
  intros Hpt Hd Hr Ht Hn Hs Hso. rewrite factors_computed. unfold computeFactors.
  assert (numericOrAbsent
            (if negb (isNullish (playingTime input))
             then VNum (Number (playingTime input)) else VNull) = true) as Hpt'.
  { destruct (isNullish (playingTime input)) eqn:E; [done|].
    unfold numericOrAbsent. cbn. by rewrite (numeric_present _ Hpt E). }
  assert (numericOrAbsent
            (if negb (isNullish (recruitingRank input))
             then VNum (if leb (Number (recruitingRank input)) (lit 1)
                        then Number (recruitingRank input)
                        else (Number (recruitingRank input) / lit 100)%js)
             else VNull) = true) as Hr'.
  { destruct (isNullish (recruitingRank input)) eqn:E; [done|].
    unfold numericOrAbsent. cbn [negb isNullish Number orb].
    by rewrite (normalized_rank_not_NaN _ (numeric_present _ Hr E)). }
  repeat apply Forall_cons_2; cbn [snd]; try apply Forall_nil_2.
  - by apply riskFromPlayingTime_unit.
  - by apply riskFromDistance_spec.
  - by apply riskFromRecruiting_unit.
  - by apply riskFromTeamPerformance_unit.
  - by apply riskFromNIL_spec.
  - by apply riskFromSnaps_unit.
  - by apply riskFromSocial_unit.
Qed.

(** *** The neutral baseline *)

(** C2. For the empty record and no weight argument the probability is
    exactly 50, every factor risk is 0.5, and the breakdown lists the seven
    factors, each with its default weight. *)
Theorem empty_record_is_neutral :
  let r := computeTransferProbability emptyRecord ∅ in
  probability r = lit 50
  ∧ factors r = (λ key, (key, lit 0.5)) <$> FACTOR_KEYS
  ∧ (breakdown r).*1 = FACTOR_KEYS
  ∧ Forall (λ e, DEFAULT_WEIGHTS !! e.1 = Some (Some (weight e.2))
                 ∧ risk e.2 = lit 0.5) (breakdown r).
Proof. by_computation. Qed.

(** The two extreme records: every risk 0 and probability 0, every risk 1
    and probability 100. *)
Example lowest_risk_record :
  let r := computeTransferProbability lowestRisk ∅ in
  probability r = lit 0 ∧ factors r = (λ key, (key, lit 0)) <$> FACTOR_KEYS.
Proof. by_computation. Qed.

Example highest_risk_record :
  let r := computeTransferProbability highestRisk ∅ in
  probability r = lit 100 ∧ factors r = (λ key, (key, lit 1)) <$> FACTOR_KEYS.
Proof. by_computation. Qed.

(** *** Malformed signals *)

(** A signal that is present but reads as NaN goes through the clamp as NaN
    in five of the risk functions; only the two that go through [normalize]
    fall back to 0.5. *)
Lemma malformed_signal_risks (v p : value) :
  isNullish v = false → Number v = NaN →
  riskFromPlayingTime v = NaN
  ∧ riskFromRecruiting v p = NaN
  ∧ riskFromTeamPerformance v = NaN
  ∧ riskFromNIL v = NaN
  ∧ riskFromSocial v = NaN
  ∧ riskFromDistance v = lit 0.5
  ∧ riskFromSnaps v (lit 800) = lit 0.5.
Proof.
  intros Hv Hn.
  unfold riskFromPlayingTime, riskFromRecruiting, riskFromTeamPerformance, riskFromNIL,
    riskFromSocial, riskFromDistance, riskFromSnaps.
  rewrite Hv, Hn. repeat split; try done. by_computation.
Qed.

(** C1 (the code departs from it). With a nilScore that is NaN, or the text
    "abc", and nothing else, the NIL risk is NaN instead of the neutral 0.5,
    and the probability is NaN. *)
Theorem malformed_signal_poisons_probability :
  (let r := computeTransferProbability (nilOnly (VNum NaN)) ∅ in
   prop (factors r) "nilCollectives" = Some NaN ∧ probability r = NaN)
  ∧ (let r := computeTransferProbability (nilOnly (VOther NaN)) ∅ in
     prop (factors r) "nilCollectives" = Some NaN ∧ probability r = NaN).
Proof. by_computation. Qed.

(** *** Weights *)

Lemma resolveWeights_lookup (input : SignalRecord) (ws : weightMap) (key : string) :
  resolveWeights input ws !! key =
    firstDefined (ws !! key)
      (firstDefined (embeddedWeights input !! key) (DEFAULT_WEIGHTS !! key)).
Proof.
  unfold resolveWeights, spread, embeddedWeights.
  destruct (weights input) as [m|]; simpl;
    rewrite ?lookup_union, ?lookup_empty.
  - by destruct (ws !! key), (m !! key), (DEFAULT_WEIGHTS !! key).
  - by destruct (ws !! key), (DEFAULT_WEIGHTS !! key).
Qed.

Lemma get_resolve (input : SignalRecord) (ws : weightMap) (key : string) :
  get (resolveWeights input ws) key =
    mjoin (firstDefined (ws !! key)
      (firstDefined (embeddedWeights input !! key) (DEFAULT_WEIGHTS !! key))).
Proof. unfold get. by rewrite resolveWeights_lookup. Qed.

Lemma factor_keys (input : SignalRecord) : (computeFactors input).*1 = FACTOR_KEYS.
Proof. done. Qed.

Lemma breakdown_computed (input : SignalRecord) (ws : weightMap) :
  breakdown (computeTransferProbability input ws)
  = breakdownEntry (resolveWeights input ws) <$> computeFactors input.
Proof. unfold computeTransferProbability. by destruct (foldl _ _ _). Qed.

Lemma breakdown_keys (input : SignalRecord) (ws : weightMap) :
  (breakdown (computeTransferProbability input ws)).*1 = FACTOR_KEYS.
Proof.
  rewrite breakdown_computed, <- (factor_keys input), <- list_fmap_compose.
  apply list_fmap_ext. by intros i [k r] _.
Qed.

(** C4. Per key, the effective weight is the explicit argument's entry when
    it has one, else the entry of the record's embedded weights when they
    have one, else the built-in default; and the weight that the breakdown
    reports for each factor is the one resolved this way (0 when the
    resolved entry is missing or nullish). *)
Theorem weights_resolve_later_source_first
    (input : SignalRecord) (ws : weightMap) (key : string) :
  resolveWeights input ws !! key =
    firstDefined (ws !! key)
      (firstDefined (embeddedWeights input !! key) (DEFAULT_WEIGHTS !! key))
  ∧ (λ e, weight e.2) <$> breakdown (computeTransferProbability input ws)
    = (λ k, default (lit 0)
              (mjoin (firstDefined (ws !! k)
                        (firstDefined (embeddedWeights input !! k)
                           (DEFAULT_WEIGHTS !! k))))) <$> FACTOR_KEYS.
Proof.
  split; [apply resolveWeights_lookup|].
  rewrite breakdown_computed, <- (factor_keys input), <- !list_fmap_compose.
  apply list_fmap_ext. intros i [k r] _.
  unfold compose. cbn [breakdownEntry fst snd weight]. unfold getOrZero.
  by rewrite get_resolve.
Qed.

(** *** The combination rule *)

Lemma foldl_accumulate (w : weightMap) (fs : list (string * num)) (a b : num) :
  foldl (accumulate w) (a, b) fs =
    (foldl add a ((λ e, getOrZero w e.1) <$> contributing w fs),
     foldl add b ((λ e, getOrZero w e.1 * e.2)%js <$> contributing w fs)).
Proof.
  revert a b. induction fs as [|[k r] fs IH]; intros a b; [done|].
  cbn [foldl accumulate contributing List.filter fst snd].
  unfold carriesWeight, getOrZero. destruct (get w k) as [n|] eqn:E; [|apply IH].
  destruct (gtb n (lit 0)); [|apply IH].
  rewrite IH. cbn. by rewrite E.
Qed.



(** *** The recruiting risk *)

(** C6 as stated fails: with [recruitingRank: 250] and [playingTime: 0] the
    stated formula gives 2.5, the code gives 1. *)
Lemma recruiting_risk_is_clamped_at_rank_250 :
  prop (factors (computeTransferProbability
                   (recruitOnly (VNum (lit 250)) (VNum (lit 0))) ∅))
       "recruitingRank"
  ≠ Some (statedRecruitingRisk (lit 250) (VNum (lit 0))).
Proof. by_computation. Qed.

Lemma recruiting_risk_formula (input : SignalRecord) (ws : weightMap) :
  isNullish (recruitingRank input) = false →
  prop (factors (computeTransferProbability input ws)) "recruitingRank"
  = Some (clampedRecruitingRisk (Number (recruitingRank input)) (playingTime input)).
Proof.
  intros Hr. rewrite factors_computed. unfold computeFactors, prop.
  cbn [list_to_map foldr].
  rewrite lookup_insert_ne by done. rewrite lookup_insert_ne by done.
  rewrite lookup_insert_eq. f_equal.
  unfold riskFromRecruiting, clampedRecruitingRisk, statedNormalizedRank, clampUnit.
  rewrite Hr. cbn [negb isNullish Number].
  by destruct (isNullish (playingTime input)).
Qed.

Lemma rank_100_is_rank_1 (playingTime : value) :
  clampedRecruitingRisk (lit 100) playingTime = clampedRecruitingRisk (lit 1) playingTime.
Proof.
  unfold clampedRecruitingRisk.
  assert (clampUnit (statedNormalizedRank (lit 100))
          = clampUnit (statedNormalizedRank (lit 1))) as -> by by_computation.
  done.
Qed.

(** C6, amended. For every present recruitingRank the recruiting risk is
    clamp(normalizedRank, 0, 1) times (1 - usage), where normalizedRank is
    the rank if it is at most 1 and the rank over 100 otherwise, and usage
    is 0.5 when playingTime is absent and clamp(playingTime, 0, 1)
    otherwise; so recruitingRank 100 and recruitingRank 1.0 give the same
    recruiting risk for the same playingTime. *)
Theorem recruiting_risk_clamps_both_terms
    (input : SignalRecord) (ws : weightMap) :
  isNullish (recruitingRank input) = false →
  prop (factors (computeTransferProbability input ws)) "recruitingRank"
  = Some (clampedRecruitingRisk (Number (recruitingRank input)) (playingTime input))
  ∧ ∀ playingTime ws' ws'',
      prop (factors (computeTransferProbability
                       (recruitOnly (VNum (lit 100)) playingTime) ws'))
           "recruitingRank"
      = prop (factors (computeTransferProbability
                         (recruitOnly (VNum (lit 1)) playingTime) ws''))
             "recruitingRank".
Proof.
  intros Hr. split; [by apply recruiting_risk_formula|].
  intros pt ws' ws''. rewrite !recruiting_risk_formula by done.
  cbn [recruitOnly recruitingRank playingTime Number].
  apply (f_equal Some), rank_100_is_rank_1.
Qed.

Lemma recruiting_risk_clamps_both_terms_witness :
  prop (factors (computeTransferProbability
                   (recruitOnly (VNum (lit 250)) (VNum (lit 0))) ∅))
       "recruitingRank"
  = Some (clampedRecruitingRisk (lit 250) (VNum (lit 0))).
Proof.
  exact (proj1 (recruiting_risk_clamps_both_terms
                  (recruitOnly (VNum (lit 250)) (VNum (lit 0))) ∅ eq_refl)).
Defined.

(** *** The breakdown *)

(** The breakdown has one entry per factor, in the order of the factors,
    with risk and contribution rounded to two decimals. *)
Lemma breakdown_reports_every_factor (input : SignalRecord) (ws : weightMap) :
  let r := computeTransferProbability input ws in
  breakdown r = reportedEntry (resolveWeights input ws) <$> factors r
  ∧ (breakdown r).*1 = FACTOR_KEYS.
Proof.
  cbv zeta. split; [|apply breakdown_keys].
  rewrite breakdown_computed, factors_computed.
  apply list_fmap_ext. by intros i [k r] _.
Qed.

(** A factor whose effective weight is zero, missing or nullish reports
    weight 0 and contribution 0 as long as its risk is finite. *)
Lemma zero_weight_entry (w : weightMap) (key : string) (q : Qc) :
  getOrZero w key = lit 0 →
  (reportedEntry w (key, Fin q)).2
  = {| risk := roundTo 100 (Fin q); weight := lit 0; contribution := lit 0 |}.
Proof.
  intros Hw. unfold reportedEntry. cbn [fst snd]. rewrite Hw.
  by rewrite round_zero_times.
Qed.

(** C7 (the code departs from it). With a nilScore that is NaN, or the text
    "abc", and the weight of nilCollectives set to 0, the entry reports
    weight 0 but contribution NaN, not 0. *)
Theorem zero_weight_contribution_of_malformed_signal :
  (let r := computeTransferProbability (nilOnly (VNum NaN))
              {[ "nilCollectives" := Some (lit 0) ]} in
   prop (breakdown r) "nilCollectives"
   = Some {| risk := NaN; weight := lit 0; contribution := NaN |})
  ∧ (let r := computeTransferProbability (nilOnly (VOther NaN))
                {[ "nilCollectives" := Some (lit 0) ]} in
     prop (breakdown r) "nilCollectives"
     = Some {| risk := NaN; weight := lit 0; contribution := NaN |}).
Proof. by_computation. Qed.

(** *** Keys that name no factor *)

Lemma foldl_ext_elem {A B} (f g : A → B → A) (l : list B) (a : A) :
  (∀ acc x, x ∈ l → f acc x = g acc x) → foldl f a l = foldl g a l.
Proof.
  revert a. induction l as [|x l IH]; intros a Hfg; [done|]. cbn.
  rewrite (Hfg a x) by left. apply IH. intros. apply Hfg. by right.
Qed.

Lemma accumulate_ext (w w' : weightMap) (acc : num * num) (e : string * num) :
  get w e.1 = get w' e.1 → accumulate w acc e = accumulate w' acc e.
Proof. destruct acc, e. unfold accumulate. cbn. by intros ->. Qed.

Lemma breakdownEntry_ext (w w' : weightMap) (e : string * num) :
  get w e.1 = get w' e.1 → breakdownEntry w e = breakdownEntry w' e.
Proof. destruct e. unfold breakdownEntry, getOrZero. cbn. by intros ->. Qed.

Lemma factor_key_elem (input : SignalRecord) (e : string * num) :
  e ∈ computeFactors input → e.1 ∈ FACTOR_KEYS.
Proof. intros He. rewrite <- (factor_keys input). by apply list_elem_of_fmap_2. Qed.

(** The result depends on the weights only through the seven factor keys. *)
Lemma compute_ext (input input' : SignalRecord) (ws ws' : weightMap) :
  computeFactors input = computeFactors input' →
  (∀ key, key ∈ FACTOR_KEYS →
     get (resolveWeights input ws) key = get (resolveWeights input' ws') key) →
  computeTransferProbability input ws = computeTransferProbability input' ws'.
Proof.
  intros Hf Hw. unfold computeTransferProbability. rewrite <- Hf.
  rewrite (foldl_ext_elem (accumulate (resolveWeights input ws))
             (accumulate (resolveWeights input' ws'))).
  2:{ intros acc e He. apply accumulate_ext, Hw. by eapply factor_key_elem. }
  destruct (foldl _ _ _) as [tw wsum]. f_equal.
  apply list_fmap_ext. intros i e He. apply breakdownEntry_ext, Hw.
  eapply factor_key_elem, list_elem_of_lookup_2, He.
Qed.

(** C10. A key that names none of the seven factors has no effect: adding
    it to or removing it from the explicit weights argument, or the
    record's embedded weights, leaves the whole result (probability,
    breakdown, factors) unchanged, and the key is not a key of the
    breakdown. *)
Theorem non_factor_keys_are_inert
    (input : SignalRecord) (ws : weightMap) (key : string) (v : option num) :
  key ∉ FACTOR_KEYS →
  let r := computeTransferProbability input ws in
  computeTransferProbability input (<[key := v]> ws) = r
  ∧ computeTransferProbability input (delete key ws) = r
  ∧ computeTransferProbability
      (setWeights input (Some (<[key := v]> (embeddedWeights input)))) ws = r
  ∧ computeTransferProbability
      (setWeights input (Some (delete key (embeddedWeights input)))) ws = r
  ∧ key ∉ (breakdown r).*1.
Proof.
  intros Hkey r. subst r. repeat split.
  - apply compute_ext; [done|]. intros k Hk. rewrite !get_resolve.
    rewrite lookup_insert_ne; [done|]. by intros ->.
  - apply compute_ext; [done|]. intros k Hk. rewrite !get_resolve.
    rewrite lookup_delete_ne; [done|]. by intros ->.
  - apply compute_ext; [done|]. intros k Hk. rewrite !get_resolve.
    unfold embeddedWeights at 1. cbn.
    rewrite lookup_insert_ne; [done|]. by intros ->.
  - apply compute_ext; [done|]. intros k Hk. rewrite !get_resolve.
    unfold embeddedWeights at 1. cbn.
    rewrite lookup_delete_ne; [done|]. by intros ->.
  - by rewrite breakdown_keys.
Qed.

Lemma non_factor_keys_are_inert_witness :
  ("bonus" ∉ FACTOR_KEYS)
  ∧ (computeTransferProbability emptyRecord (<["bonus" := Some (lit 3)]> ∅)
     = computeTransferProbability emptyRecord ∅).
Proof.
  assert ("bonus" ∉ FACTOR_KEYS) as H by by_computation.
  split; [exact H|].
  exact (proj1 (non_factor_keys_are_inert emptyRecord ∅ "bonus" (Some (lit 3)) H)).
Defined.

End ScorerProofs.

(** ** The Aggregator *)

Module AggregatorProofs.

Import Text Aggregator AggregatorSpec.



Lemma or_empty_Some (t : string) : or_empty (Some t) = t.
Proof.
  unfold or_empty, truthy. destruct (String.eqb t "") eqn:E; [|done].
  by apply String.eqb_eq in E as ->.
Qed.





(** A rejected name search is rethrown as it is. *)
Lemma rejected_search_is_rethrown (api : Api) (opts : Opts.t) (message : string) :
  nameWithoutTeam opts = true →
  String.eqb (trim (or_empty (Opts.playerName opts))) "" = false →
  searchAnswer api opts = Failed message →
  aggregatePlayerInput api opts = Throws (FetchError message).
Proof.
  unfold nameWithoutTeam, searchAnswer, aggregatePlayerInput, resolvePlayerByName.
  destruct opts as [year team playerName d n s pt twr rr sp];
    cbn [Opts.team Opts.playerName Opts.year].
  intros -> Htrim Hsearch. destruct playerName as [given|]; [|done].
  rewrite or_empty_Some in Htrim, Hsearch. by rewrite Htrim, Hsearch.
Qed.

(** A malformed signal reaches the Scorer from the command line:
    [--team=Alabama --nil=abc] with no data from the source prints a
    probability of NaN. *)
Example nil_abc_on_the_command_line :
  ∃ r, Cli.score (onlySearch []) (alabamaNilAbc (lit 2024)) = Resolves r
       ∧ Scorer.probability r = NaN.
Proof. eexists. split; [vm_compute; reflexivity|done]. Qed.

(** C9 as stated fails: with all seven signals passed for a team whose rows
    give usage 35%, 120 snaps, four stars and a 9-3 record, the result
    carries the derived playingTime 0.35, teamWinRate 0.75, recruitingRank
    0.8 and snapsPlayed 120, not the values passed. *)
Lemma raw_signal_options_are_ignored :
  ∃ out, aggregatePlayerInput buckeyes everyOverride = Resolves out
         ∧ Out.playingTime out = VNum (lit 0.35)
         ∧ Out.teamWinRate out = VNum (lit 0.75)
         ∧ Out.recruitingRank out = VNum (lit 0.8)
         ∧ Out.snapsPlayed out = VNum (lit 120)
         ∧ ¬ overridesWin everyOverride out.
Proof.
  eexists. split; [vm_compute; reflexivity|].
  repeat split; by_computation.
Qed.

Lemma aggregate_resolves (api : Api) (opts : Opts.t) (out : Out.t) :
  aggregatePlayerInput api opts = Resolves out →
  ∃ team playerName,
    out = aggregateFor api (Opts.year opts) team playerName
            (Opts.distanceFromHighSchoolMiles opts) (Opts.nilScore opts)
            (Opts.socialSentiment opts).
Proof.
  unfold aggregatePlayerInput.
  destruct (blank (Opts.team opts) && truthy (Opts.playerName opts)).
  - destruct (resolvePlayerByName _ _ _) as [[r|]|e]; try done.
    destruct (blank _); [done|]. intros [= <-]. eauto.
  - destruct (blank _); [done|]. intros [= <-]. eauto.
Qed.

Lemma distanceSignal_override (d : value) (roster : option Roster.t) (team : string) :
  isNullish d = false → distanceSignal d roster team = d.
Proof. unfold distanceSignal. intros ->. by destruct roster. Qed.

Lemma nullish_or_present (v d : value) : isNullish v = false → nullish_or v d = v.
Proof. unfold nullish_or. by intros ->. Qed.

(** C9, amended. In every result of the Aggregator, each of nilScore,
    socialSentiment and distanceFromHighSchoolMiles that is passed in the
    options (not nullish) is the value of the corresponding field.  The
    options playingTime, teamWinRate, recruitingRank and snapsPlayed are not
    read: changing them changes nothing in the outcome. *)
Theorem aggregate_overrides (api : Api) (opts : Opts.t) (out : Out.t) :
  aggregatePlayerInput api opts = Resolves out →
  (present (Opts.nilScore opts) → Out.nilScore out = Opts.nilScore opts)
  ∧ (present (Opts.socialSentiment opts) →
     Out.socialSentiment out = Opts.socialSentiment opts)
  ∧ (present (Opts.distanceFromHighSchoolMiles opts) →
     Out.distanceFromHighSchoolMiles out = Opts.distanceFromHighSchoolMiles opts)
  ∧ (∀ playingTime teamWinRate recruitingRank snapsPlayed,
       aggregatePlayerInput api
         (withRawSignals opts playingTime teamWinRate recruitingRank snapsPlayed)
       = aggregatePlayerInput api opts).
Proof.
  intros Hout.
  destruct (aggregate_resolves _ _ _ Hout) as (team & playerName & ->).
  clear Hout. unfold aggregateFor, present. destruct (usageSignals _) as [pt sp]. cbn.
  repeat split; try done.
  - apply nullish_or_present.
  - apply nullish_or_present.
  - apply distanceSignal_override.
Qed.

Lemma aggregate_overrides_witness :
  ∃ out, aggregatePlayerInput buckeyes everyOverride = Resolves out
         ∧ Out.nilScore out = VNum (lit 0.4)
         ∧ Out.socialSentiment out = VNum (lit 0.6)
         ∧ Out.distanceFromHighSchoolMiles out = VNum (lit 900).
Proof.
  eexists. split; [vm_compute; reflexivity|].
  destruct (aggregate_overrides buckeyes everyOverride _ eq_refl) as (Hn & Hs & Hd & _).
  exact (conj (Hn eq_refl) (conj (Hs eq_refl) (Hd eq_refl))).
Defined.

End AggregatorProofs.

(* ================================================================== *)
(** * Further properties of the code

    Properties that the code shows beyond those its specification states:
    of the Scorer, of the Aggregator, of the score requests of the HTTP
    interface and of the command line. *)

Module ScorerLaws.

Import JS Scorer ScorerSpec ScorerTerms NumFacts ScorerProofs.

(** [leb] holds only between numbers. *)
Lemma leb_not_NaN (x y : num) : leb x y = true → isNaN x = false ∧ isNaN y = false.
Proof. by destruct x, y. Qed.

Lemma leb_Fin (a b : Qc) : leb (Fin a) (Fin b) = true ↔ a ≤ b.
Proof. cbn. apply bool_decide_eq_true. Qed.

(** [Math.max(lo, Math.min(hi, n))] grows with [n]. *)
Lemma clamp_mono (lo hi : Qc) (n m : num) :
  lo ≤ hi → leb n m = true →
  leb (Math_max (Fin lo) (Math_min (Fin hi) n))
      (Math_max (Fin lo) (Math_min (Fin hi) m)) = true.
Proof.
  intros Hlh Hnm. destruct (leb_not_NaN _ _ Hnm) as [Hn Hm].
  destruct (clamp_spec lo hi n Hlh Hn) as (p & -> & Hp1 & Hp2 & Hplo & Hphi & Hpin).
  destruct (clamp_spec lo hi m Hlh Hm) as (q & -> & Hq1 & Hq2 & Hqlo & Hqhi & Hqin).
  apply leb_Fin.
  destruct n as [| |a|], m as [| |b|]; try done;
    try (by rewrite Hplo); try (by rewrite Hqhi).
  apply leb_Fin in Hnm.
  destruct (Qclt_le_dec a lo) as [Ha|Ha].
  { rewrite Hplo; [done|]. by apply leb_Fin, Qclt_le_weak. }
  destruct (Qclt_le_dec hi b) as [Hb|Hb].
  { rewrite Hqhi; [done|]. by apply leb_Fin, Qclt_le_weak. }
  rewrite (Hpin a), (Hqin b); try done.
  - by trans a.
  - by trans b.
Qed.

(** With the bounds the wrong way round the clamp gives the lower one. *)
Lemma clamp_reversed (lo hi : Qc) (n : num) :
  hi ≤ lo → isNaN n = false →
  Math_max (Fin lo) (Math_min (Fin hi) n) = Fin lo.
Proof.
  intros Hhl Hn. destruct n as [| |a|]; try done; cbn.
  - case_bool_decide as H1; cbn.
    + rewrite bool_decide_eq_false_2; [done|].
      apply Qcle_not_lt. trans hi; [by apply Qclt_le_weak|done].
    + rewrite bool_decide_eq_false_2; [done|]. by apply Qcle_not_lt.
  - rewrite bool_decide_eq_false_2; [done|]. by apply Qcle_not_lt.
Qed.

Lemma Qcminus_nonneg (a b : Qc) : a ≤ b ↔ 0 ≤ b + - a.
Proof. apply Qcle_minus_iff. Qed.

Lemma Qcminus_eq_0 (a b : Qc) : b + - a = 0 ↔ a = b.
Proof.
  split; [|intros ->; ring].
  intros H. rewrite <- (Qcplus_0_l a), <- H. ring.
Qed.

Lemma normalize_range (lo hi : Qc) (n : num) :
  isNaN n = false →
  ∃ q, normalize (VNum n) (Fin lo) (Fin hi) = Fin q ∧ 0 ≤ q ∧ q ≤ 1
       ∧ (hi ≤ lo → q = 0)
       ∧ (lo < hi → ∀ a, n = Fin a → lo ≤ a → a ≤ hi → q = (a - lo) / (hi - lo)).
Proof.
  intros Hn. unfold normalize. cbn [isNullish Number orb]. rewrite Hn.
  destruct (Qclt_le_dec lo hi) as [Hlt|Hle].
  - destruct (clamp_spec lo hi n (Qclt_le_weak _ _ Hlt) Hn)
      as (p & -> & Hp1 & Hp2 & _ & _ & Hin).
    assert (0 < hi + - lo) as Hpos by (by apply Qclt_minus_iff in Hlt).
    assert (hi + - lo ≠ 0) as Hne by (by apply not_eq_sym, Qclt_not_eq).
    cbn. unfold or_else. cbn. rewrite bool_decide_eq_false_2 by done.
    destruct (decide (hi + - lo = Q2Qc 0)); [done|].
    destruct (Qcdiv_unit (p + - lo) (hi + - lo)) as [? ?]; try done.
    { by apply (proj1 (Qcminus_nonneg lo p)). }
    { by apply Qcplus_le_mono_r. }
    eexists; split; [reflexivity|]. split_and!; try done.
    + intros Hhl. by destruct (Qclt_not_le _ _ Hlt).
    + intros _ a Ha ? ?. by rewrite (Hin a Ha).
  - rewrite (clamp_reversed lo hi n Hle Hn).
    exists 0. split_and!; try done.
    + cbn. unfold or_else. cbn. assert (lo + - lo = 0) as -> by ring.
      destruct (bool_decide (hi + - lo = Q2Qc 0)) eqn:E; cbn.
      * destruct (decide (Q2Qc 1 = Q2Qc 0)) as [E1|_]; [done|].
        unfold Qcdiv. by rewrite Qcmult_0_l.
      * rewrite bool_decide_eq_false in E.
        destruct (decide (hi + - lo = Q2Qc 0)); [done|].
        unfold Qcdiv. by rewrite Qcmult_0_l.
    + intros Hlt. by destruct (Qclt_not_le _ _ Hlt).
Qed.


Lemma leb_trans (x y z : num) : leb x y = true → leb y z = true → leb x z = true.
Proof.
  destruct x as [| |a|], y as [| |b|], z as [| |c|]; try done.
  rewrite !leb_Fin. intros. by trans b.
Qed.

Lemma inUnit_inv (x : num) : inUnit x = true → ∃ q, x = Fin q ∧ 0 ≤ q ∧ q ≤ 1.
Proof.
  destruct x as [| |q|]; try done. intros H. exists q. split; [done|].
  by apply inUnit_Fin.
Qed.

Lemma max0_mono (n m : num) :
  leb n m = true → leb (Math_max (lit 0) n) (Math_max (lit 0) m) = true.
Proof.
  unfold lit.
  destruct n as [| |a|], m as [| |b|]; try done; cbn;
    rewrite ?bool_decide_eq_true; intros Hab;
    repeat case_bool_decide; try done; cbn;
    rewrite ?bool_decide_eq_true; try qc_order.
  - match goal with H : ¬ _ ≤ _ |- _ => destruct H end. by apply Qclt_le_weak.
  - match goal with H : ¬ _ < _ |- _ => destruct H end. by eapply Qclt_le_trans.
Qed.

(** [1 - x] falls as [x] grows. *)
Lemma complement_anti (p q : Qc) :
  p ≤ q → leb (lit 1 - Fin q)%js (lit 1 - Fin p)%js = true.
Proof.
  intros H. cbn. apply bool_decide_eq_true.
  apply Qcplus_le_mono_l. by apply Qcopp_le_compat.
Qed.

Lemma complement_clamp_anti (n m : num) :
  leb n m = true →
  leb (lit 1 - clampUnit m)%js (lit 1 - clampUnit n)%js = true.
Proof.
  intros H. pose proof (clamp_mono _ _ n m unit_bounds H) as Hc.
  destruct (leb_not_NaN _ _ H) as [Hn Hm]. unfold clampUnit, lit.
  destruct (clamp_spec _ _ n unit_bounds Hn) as (p & Ep & _).
  destruct (clamp_spec _ _ m unit_bounds Hm) as (q & Eq & _).
  rewrite Ep, Eq in *. apply complement_anti. by apply leb_Fin.
Qed.

(** Inside a proper range, [normalize] is the clamped value rescaled. *)
Lemma normalize_clamped (lo hi : Qc) (n : num) :
  lo < hi → isNaN n = false →
  ∃ p, Math_max (Fin lo) (Math_min (Fin hi) n) = Fin p
       ∧ normalize (VNum n) (Fin lo) (Fin hi) = Fin ((p - lo) / (hi - lo)).
Proof.
  intros Hlt Hn. unfold normalize. cbn [isNullish Number orb]. rewrite Hn.
  destruct (clamp_spec lo hi n (Qclt_le_weak _ _ Hlt) Hn) as (p & -> & _).
  exists p. split; [done|].
  assert (0 < hi + - lo) as Hpos by (by apply Qclt_minus_iff in Hlt).
  assert (hi + - lo ≠ 0) as Hne by (by apply not_eq_sym, Qclt_not_eq).
  cbn. unfold or_else. cbn. rewrite bool_decide_eq_false_2 by done.
  by destruct (decide (hi + - lo = Q2Qc 0)).
Qed.

(** [normalize] grows with its argument, whatever the bounds. *)
Lemma normalize_mono (lo hi : Qc) (n m : num) :
  leb n m = true →
  leb (normalize (VNum n) (Fin lo) (Fin hi)) (normalize (VNum m) (Fin lo) (Fin hi)) = true.
Proof.
  intros H. destruct (leb_not_NaN _ _ H) as [Hn Hm].
  destruct (Qclt_le_dec lo hi) as [Hlt|Hle].
  - pose proof (clamp_mono lo hi n m (Qclt_le_weak _ _ Hlt) H) as Hc.
    destruct (normalize_clamped lo hi n Hlt Hn) as (p & Ep & ->).
    destruct (normalize_clamped lo hi m Hlt Hm) as (q & Eq & ->).
    rewrite Ep, Eq in Hc. apply leb_Fin in Hc. apply leb_Fin.
    unfold Qcdiv, Qcminus. apply Qcmult_le_compat_r.
    + by apply Qcplus_le_mono_r.
    + apply Qclt_le_weak, Qcinv_pos. by apply Qclt_minus_iff in Hlt.
  - destruct (normalize_range lo hi n Hn) as (p & -> & _ & _ & Hp & _).
    destruct (normalize_range lo hi m Hm) as (q & -> & _ & _ & Hq & _).
    rewrite (Hp Hle), (Hq Hle). by apply leb_Fin.
Qed.

Lemma riskFromSocial_mono (v v' : value) :
  isNullish v = false → isNullish v' = false →
  leb (Number v) (Number v') = true →
  leb (riskFromSocial v) (riskFromSocial v') = true.
Proof.
  intros Hv Hv' H. unfold riskFromSocial. rewrite Hv, Hv'.
  by apply (clamp_mono _ _ _ _ unit_bounds).
Qed.

Lemma riskFromPlayingTime_anti (v v' : value) :
  isNullish v = false → isNullish v' = false →
  leb (Number v) (Number v') = true →
  leb (riskFromPlayingTime v') (riskFromPlayingTime v) = true.
Proof.
  intros Hv Hv' H. unfold riskFromPlayingTime. rewrite Hv, Hv'.
  by apply complement_clamp_anti.
Qed.

Lemma riskFromTeamPerformance_anti (v v' : value) :
  isNullish v = false → isNullish v' = false →
  leb (Number v) (Number v') = true →
  leb (riskFromTeamPerformance v') (riskFromTeamPerformance v) = true.
Proof.
  intros Hv Hv' H. unfold riskFromTeamPerformance. rewrite Hv, Hv'.
  by apply complement_clamp_anti.
Qed.

Lemma riskFromNIL_anti (v v' : value) :
  isNullish v = false → isNullish v' = false →
  leb (Number v) (Number v') = true →
  leb (riskFromNIL v') (riskFromNIL v) = true.
Proof.
  intros Hv Hv' H. unfold riskFromNIL. rewrite Hv, Hv'.
  by apply complement_clamp_anti.
Qed.

Lemma riskFromDistance_mono (v v' : value) :
  isNullish v = false → isNullish v' = false →
  leb (Number v) (Number v') = true →
  leb (riskFromDistance v) (riskFromDistance v') = true.
Proof.
  intros Hv Hv' H. unfold riskFromDistance. rewrite Hv, Hv'.
  by apply normalize_mono, max0_mono.
Qed.

Lemma riskFromSnaps_anti (hi : Qc) (v v' : value) :
  isNullish v = false → isNullish v' = false →
  leb (Number v) (Number v') = true →
  leb (riskFromSnaps v' (Fin hi)) (riskFromSnaps v (Fin hi)) = true.
Proof.
  intros Hv Hv' H. unfold riskFromSnaps. rewrite Hv, Hv'. cbv zeta.
  pose proof (normalize_mono (Q2Qc 0) hi _ _ (max0_mono _ _ H)) as Hm.
  destruct (leb_not_NaN _ _ H) as [Hn Hn'].
  destruct (normalize_range (Q2Qc 0) hi _ (max0_not_NaN _ Hn)) as (p & Ep & _).
  destruct (normalize_range (Q2Qc 0) hi _ (max0_not_NaN _ Hn')) as (q & Eq & _).
  unfold lit in *. rewrite Ep, Eq in *. apply complement_anti. by apply leb_Fin.
Qed.

Lemma clampUnit_Fin (n : num) :
  isNaN n = false → ∃ p, clampUnit n = Fin p ∧ 0 ≤ p ∧ p ≤ 1.
Proof.
  intros Hn. destruct (clamp_spec _ _ n unit_bounds Hn) as (p & E & ? & ? & _).
  by exists p.
Qed.

(** The usage term of the recruiting risk: the clamped playing time, one
    half when it is absent. *)
Lemma recruiting_usage (p : value) :
  numericOrAbsent p = true →
  ∃ u, (if negb (isNullish p)
        then Math_max (lit 0) (Math_min (lit 1) (Number p)) else lit 0.5) = Fin u
       ∧ 0 ≤ u ∧ u ≤ 1.
Proof.
  intros Hp. destruct (isNullish p) eqn:E; cbn [negb].
  - eexists. split; [reflexivity|]. split; by_computation.
  - apply clampUnit_Fin. by apply numeric_present.
Qed.

Lemma riskFromRecruiting_mono (r r' p : value) :
  isNullish r = false → isNullish r' = false →
  leb (Number r) (Number r') = true → numericOrAbsent p = true →
  leb (riskFromRecruiting r p) (riskFromRecruiting r' p) = true.
Proof.
  intros Hr Hr' H Hp. unfold riskFromRecruiting. rewrite Hr, Hr'. cbv zeta.
  destruct (recruiting_usage p Hp) as (u & -> & Hu0 & Hu1).
  pose proof (clamp_mono _ _ _ _ unit_bounds H) as Hc.
  destruct (leb_not_NaN _ _ H) as [Hn Hn'].
  destruct (clampUnit_Fin _ Hn) as (a & Ea & _).
  destruct (clampUnit_Fin _ Hn') as (b & Eb & _).
  unfold clampUnit, lit in *. rewrite Ea, Eb in *. apply leb_Fin in Hc.
  apply leb_Fin. apply Qcmult_le_compat_r; [done|].
  by apply (proj1 (Qcminus_nonneg u 1)).
Qed.

Lemma riskFromRecruiting_anti (r p p' : value) :
  numericOrAbsent r = true →
  isNullish p = false → isNullish p' = false →
  leb (Number p) (Number p') = true →
  leb (riskFromRecruiting r p') (riskFromRecruiting r p) = true.
Proof.
  intros Hr Hp Hp' H. unfold riskFromRecruiting.
  destruct (isNullish r) eqn:Er; [by_computation|]. cbv zeta.
  rewrite Hp, Hp'. cbn [negb].
  pose proof (clamp_mono _ _ _ _ unit_bounds H) as Hc.
  destruct (leb_not_NaN _ _ H) as [Hn Hn'].
  destruct (clampUnit_Fin _ (numeric_present r Hr Er)) as (a & Ea & Ha & _).
  destruct (clampUnit_Fin _ Hn) as (u & Eu & _).
  destruct (clampUnit_Fin _ Hn') as (u' & Eu' & _).
  unfold clampUnit, lit in *. rewrite Ea, Eu, Eu' in *. apply leb_Fin in Hc.
  apply leb_Fin. rewrite !(Qcmult_comm a). apply Qcmult_le_compat_r; [|done].
  apply Qcplus_le_mono_l. by apply Qcopp_le_compat.
Qed.

(** *** One turn of the weighted sums *)

Lemma accumulate_step (w : weightMap) (e : string * num) :
  get w e.1 ≠ Some PosInf →
  (carriesWeight w e.1 = false ∧ ∀ acc, accumulate w acc e = acc)
  ∨ (∃ c, Q2Qc 0 < c ∧ get w e.1 = Some (Fin c)
          ∧ ∀ t s q, e.2 = Fin q →
              accumulate w (Fin t, Fin s) e = (Fin (t + c), Fin (s + c * q))).
Proof.
  destruct e as [key risk]. cbn [fst snd]. intros Hfin.
  unfold carriesWeight, accumulate.
  destruct (get w key) as [[| |c|]|] eqn:E; try done.
  - left. split; [done|]. by intros [??].
  - left. split; [done|]. by intros [??].
  - destruct (gtb (Fin c) (lit 0)) eqn:Hc.
    + right. exists c. split; [by apply bool_decide_eq_true in Hc|].
      split; [done|]. by intros ??? ->.
    + left. split; [done|]. by intros [??].
  - left. split; [done|]. by intros [??].
Qed.

Lemma accumulate_compare (w : weightMap) (fs fs' : list (string * num)) (t s s2 : Qc) :
  Forall2 (λ e e', e.1 = e'.1 ∧ inUnit e.2 = true ∧ inUnit e'.2 = true
                   ∧ leb e.2 e'.2 = true) fs fs' →
  Forall (λ e, get w e.1 ≠ Some PosInf) fs →
  0 ≤ s → s ≤ s2 → s2 ≤ t →
  ∃ t' s' s2',
    foldl (accumulate w) (Fin t, Fin s) fs = (Fin t', Fin s')
    ∧ foldl (accumulate w) (Fin t, Fin s2) fs' = (Fin t', Fin s2')
    ∧ 0 ≤ s' ∧ s' ≤ s2' ∧ s2' ≤ t'.
Proof.
  intros H. revert t s s2.
  induction H as [|e e' fs fs' (Hk & Hu & Hu' & Hle) _ IH]; intros t s s2 Hw H0 H1 H2.
  { by exists t, s, s2. }
  inversion_clear Hw as [|?? Hfin Hw']. cbn [foldl].
  destruct (accumulate_step w e Hfin) as [[Hoff Hskip]|(c & Hc & Hget & Hadd)].
  - destruct (accumulate_step w e') as [[_ Hskip']|(c' & Hc' & Hget' & _)];
      [by rewrite <- Hk| |].
    + rewrite Hskip, Hskip'. by apply IH.
    + unfold carriesWeight in Hoff. rewrite Hk, Hget' in Hoff.
      cbn in Hoff. by rewrite bool_decide_eq_true_2 in Hoff.
  - destruct (inUnit_inv _ Hu) as (q & Eq & Hq0 & Hq1).
    destruct (inUnit_inv _ Hu') as (q' & Eq' & Hq0' & Hq1').
    rewrite (Hadd t s q Eq).
    destruct (accumulate_step w e') as [[Hoff _]|(c' & _ & Hget' & Hadd')];
      [by rewrite <- Hk| |].
    { unfold carriesWeight in Hoff. rewrite <- Hk, Hget in Hoff.
      cbn in Hoff. by rewrite bool_decide_eq_true_2 in Hoff. }
    rewrite <- Hk, Hget in Hget'. injection Hget' as <-.
    rewrite (Hadd' t s2 q' Eq'). rewrite Eq, Eq' in Hle. apply leb_Fin in Hle.
    assert (0 ≤ c) as Hc0 by (by apply Qclt_le_weak).
    apply IH; [done| | |].
    + apply Qcplus_nonneg_nonneg; [done|]. by apply Qcmult_nonneg_nonneg.
    + apply Qcplus_le_compat; [done|].
      rewrite !(Qcmult_comm c). by apply Qcmult_le_compat_r.
    + apply Qcplus_le_compat; [done|].
      rewrite <- (Qcmult_1_r c) at 2. rewrite !(Qcmult_comm c).
      by apply Qcmult_le_compat_r.
Qed.

(** *** Rounding to one decimal *)

(** The numerators of two rounded values are ordered as the values are. *)
Lemma grid_compare (x y : Qc) (k k' : Z) :
  Qc_of_Z k ≤ x + Q2Qc (1 # 2) → y + Q2Qc (1 # 2) < Qc_of_Z k' + 1 →
  x ≤ y → (k ≤ k')%Z.
Proof.
  intros Hk Hk' Hxy. apply Z.lt_succ_r, Z2Qc_inj_lt.
  unfold Z.succ. rewrite Z2Qc_inj_add, Z2Qc_inj_1.
  eapply Qcle_lt_trans; [|exact Hk'].
  etrans; [exact Hk|]. by apply Qcplus_le_mono_r.
Qed.

Lemma roundTo_tenths (x y : Qc) :
  0 ≤ x → x ≤ y → y ≤ Q2Qc 100 →
  ∃ k k' : Z,
    roundTo 10 (Fin x) = Fin (Qc_of_Z k / Q2Qc 10)
    ∧ roundTo 10 (Fin y) = Fin (Qc_of_Z k' / Q2Qc 10)
    ∧ (0 ≤ k)%Z ∧ (k ≤ k')%Z ∧ (k' ≤ 1000)%Z.
Proof.
  intros H0 Hxy H100.
  destruct (roundTo_nearest 10 x) as (k & Ek & Hk1 & Hk2).
  destruct (roundTo_nearest 10 y) as (k' & Ek' & Hk1' & Hk2').
  assert (Q2Qc 0 ≤ Q2Qc (10 # 1)) as Hten by by_computation.
  exists k, k'. split_and!; try done.
  - apply (grid_compare 0 (x * Q2Qc (10 # 1)) 0 k); [by_computation|done|].
    by apply Qcmult_nonneg_nonneg.
  - apply (grid_compare (x * Q2Qc (10 # 1)) (y * Q2Qc (10 # 1)) k k'); [done..|].
    by apply Qcmult_le_compat_r.
  - apply (grid_compare (y * Q2Qc (10 # 1)) (Q2Qc 1000) k' 1000); [done|by_computation|].
    assert (Q2Qc 1000 = Q2Qc 100 * Q2Qc (10 # 1)) as -> by by_computation.
    by apply Qcmult_le_compat_r.
Qed.

(** Lines 142 and 149 on two weighted sums under the same total weight. *)
Lemma finish_compare (t s s2 : Qc) :
  0 ≤ s → s ≤ s2 → s2 ≤ t →
  ∃ k k' : Z,
    roundTo 10 (if gtb (Fin t) (lit 0) then (Fin s / Fin t * lit 100)%js else lit 50)
      = Fin (Qc_of_Z k / Q2Qc 10)
    ∧ roundTo 10 (if gtb (Fin t) (lit 0) then (Fin s2 / Fin t * lit 100)%js else lit 50)
      = Fin (Qc_of_Z k' / Q2Qc 10)
    ∧ (0 ≤ k)%Z ∧ (k ≤ k')%Z ∧ (k' ≤ 1000)%Z.
Proof.
  intros H0 H1 H2. destruct (gtb (Fin t) (lit 0)) eqn:Ht.
  - apply bool_decide_eq_true in Ht.
    assert (t ≠ 0) as Hne by (by apply not_eq_sym, Qclt_not_eq).
    assert (0 ≤ / t) as Hinv by (by apply Qclt_le_weak, Qcinv_pos).
    assert (Q2Qc 0 ≤ Q2Qc 100) as Hhundred by by_computation.
    unfold lit. cbn [div mul]. destruct (decide (t = 0)); [done|].
    apply roundTo_tenths.
    + apply Qcmult_nonneg_nonneg; [|done]. by apply Qcmult_nonneg_nonneg.
    + apply Qcmult_le_compat_r; [|done]. by apply Qcmult_le_compat_r.
    + rewrite <- (Qcmult_1_l (Q2Qc 100)) at 2. apply Qcmult_le_compat_r; [|done].
      rewrite <- (Qcmult_inv_r t Hne). by apply Qcmult_le_compat_r.
  - exists 500%Z, 500%Z. rewrite round_fifty. split_and!; try done; by_computation.
Qed.

(** *** Comparing two records factor by factor *)



(** Line 109 passes on what [riskFromPlayingTime] and [riskFromRecruiting]
    read of the playing time. *)
Lemma playingTime_passed_on (pt : value) :
  let passed := if negb (isNullish pt) then VNum (Number pt) else VNull in
  riskFromPlayingTime passed = riskFromPlayingTime pt
  ∧ ∀ r, riskFromRecruiting r passed = riskFromRecruiting r pt.
Proof. by destruct pt. Qed.





Lemma wellFormed_inv (input : SignalRecord) :
  wellFormed input = true →
  numericOrAbsent (playingTime input) = true
  ∧ numericOrAbsent (distanceFromHighSchoolMiles input) = true
  ∧ numericOrAbsent (recruitingRank input) = true
  ∧ numericOrAbsent (teamWinRate input) = true
  ∧ numericOrAbsent (nilScore input) = true
  ∧ numericOrAbsent (snapsPlayed input) = true
  ∧ numericOrAbsent (socialSentiment input) = true.
Proof. unfold wellFormed. rewrite !andb_true_iff. tauto. Qed.

Lemma factors_compare_self (input : SignalRecord) :
  wellFormed input = true →
  Forall2 (λ e e', e.1 = e'.1 ∧ inUnit e.2 = true ∧ inUnit e'.2 = true
                   ∧ leb e.2 e'.2 = true)
    (computeFactors input) (computeFactors input).
Proof.
  intros (? & ? & ? & ? & ? & ? & ?)%wellFormed_inv.
  pose proof (factors_stay_in_unit_interval input ∅) as Hunit.
  rewrite factors_computed in Hunit.
  assert (Forall (λ e, inUnit e.2 = true) (computeFactors input)) as HF
    by (by apply Hunit).
  apply Forall_Forall2_diag, Forall_forall. intros e He.
  rewrite Forall_forall in HF. apply HF in He. split_and!; try done.
  destruct (inUnit_inv _ He) as (q & -> & _). by apply leb_Fin.
Qed.

Lemma finiteWeights_factors (w : weightMap) (input : SignalRecord) :
  finiteWeights w = true →
  Forall (λ e, get w e.1 ≠ Some PosInf) (computeFactors input).
Proof.
  intros H. apply Forall_forall. intros e He%list_elem_of_In%factor_key_elem.
  unfold finiteWeights in H. rewrite forallb_forall in H.
  apply list_elem_of_In, H in He. apply negb_true_iff in He.
  by apply bool_decide_eq_false in He.
Qed.

(** Lines 132-142 and 149 in terms of the two sums. *)
Lemma probability_from_sums (input : SignalRecord) (ws : weightMap) :
  probability (computeTransferProbability input ws)
  = let sums := foldl (accumulate (resolveWeights input ws)) (lit 0, lit 0)
                  (computeFactors input) in
    roundTo 10 (if gtb sums.1 (lit 0) then (sums.2 / sums.1 * lit 100)%js else lit 50).
Proof.
  unfold computeTransferProbability. cbv zeta.
  by destruct (foldl _ _ _) as [t s].
Qed.

Lemma zero_le_zero : Q2Qc 0 ≤ Q2Qc 0.
Proof. done. Qed.

Lemma probability_on_grid (input : SignalRecord) (ws : weightMap) :
  wellFormed input = true →
  finiteWeights (resolveWeights input ws) = true →
  ∃ k : Z, (0 ≤ k ≤ 1000)%Z
    ∧ probability (computeTransferProbability input ws) = Fin (Qc_of_Z k / Q2Qc 10).
Proof.
  intros Hwf Hfin. rewrite probability_from_sums. cbv zeta.
  destruct (accumulate_compare _ _ _ 0 0 0 (factors_compare_self input Hwf)
              (finiteWeights_factors _ input Hfin) zero_le_zero zero_le_zero zero_le_zero)
    as (t & s & s2 & E & E2 & H0 & _ & H1).
  rewrite E in E2. injection E2 as <-.
  change (Fin (Q2Qc 0)) with (lit 0) in E. rewrite E. cbn [fst snd].
  assert (s ≤ t) as Hst by done.
  destruct (finish_compare t s s H0 (reflexivity s) Hst) as (k & k' & Ek & _ & ? & ? & ?).
  exists k. split; [lia|done].
Qed.





(** X3. Each risk function is monotone in the number it reads: distance and
    sentiment raise the risk, playing time, win rate, NIL score and snaps
    lower it, and the recruiting risk rises with the rating and falls with
    the playing time. *)
Theorem risk_functions_are_monotone (v v' : value) :
  isNullish v = false → isNullish v' = false →
  leb (Number v) (Number v') = true →
  leb (riskFromDistance v) (riskFromDistance v') = true
  ∧ leb (riskFromSocial v) (riskFromSocial v') = true
  ∧ leb (riskFromPlayingTime v') (riskFromPlayingTime v) = true
  ∧ leb (riskFromTeamPerformance v') (riskFromTeamPerformance v) = true
  ∧ leb (riskFromNIL v') (riskFromNIL v) = true
  ∧ (∀ maxSnaps : Qc,
       leb (riskFromSnaps v' (Fin maxSnaps)) (riskFromSnaps v (Fin maxSnaps)) = true)
  ∧ (∀ p, numericOrAbsent p = true →
       leb (riskFromRecruiting v p) (riskFromRecruiting v' p) = true)
  ∧ (∀ r, numericOrAbsent r = true →
       leb (riskFromRecruiting r v') (riskFromRecruiting r v) = true).
Proof.
  intros Hv Hv' H. split_and!.
  - by apply riskFromDistance_mono.
  - by apply riskFromSocial_mono.
  - by apply riskFromPlayingTime_anti.
  - by apply riskFromTeamPerformance_anti.
  - by apply riskFromNIL_anti.
  - intros hi. by apply riskFromSnaps_anti.
  - intros p Hp. by apply riskFromRecruiting_mono.
  - intros r Hr. by apply riskFromRecruiting_anti.
Qed.

Lemma risk_functions_are_monotone_witness :
  leb (riskFromDistance (VNum (lit 200))) (riskFromDistance (VNum PosInf)) = true
  ∧ leb (riskFromNIL (VNum PosInf)) (riskFromNIL (VNum (lit 200))) = true.
Proof.
  pose proof (risk_functions_are_monotone (VNum (lit 200)) (VNum PosInf)
                eq_refl eq_refl eq_refl) as H.
  split; [exact (proj1 H) | exact (proj1 (proj2 (proj2 (proj2 (proj2 H)))))].
Defined.



(** *** The risks inside their ranges *)

Lemma max0_nonneg (x : Qc) : 0 ≤ x → Math_max (lit 0) (Fin x) = Fin x.
Proof.
  intros H. cbn. case_bool_decide as H1; [done|].
  unfold lit. f_equal. apply Qcle_antisym; [done|]. by apply Qcnot_lt_le.
Qed.

Lemma normalize_from_zero (hi x : Qc) :
  0 < hi → 0 ≤ x → x ≤ hi →
  normalize (VNum (Fin x)) (lit 0) (Fin hi) = Fin (x / hi).
Proof.
  intros Hhi H0 H1.
  destruct (normalize_range (Q2Qc 0) hi (Fin x) eq_refl) as (q & E & _ & _ & _ & Hq).
  unfold lit. rewrite E, (Hq Hhi x); try done.
  unfold Qcminus. by rewrite !Qcminus_0.
Qed.

Lemma clampUnit_inside (x : Qc) : 0 ≤ x → x ≤ 1 → clampUnit (Fin x) = Fin x.
Proof.
  intros H0 H1.
  destruct (clamp_spec _ _ (Fin x) unit_bounds eq_refl) as (q & E & _ & _ & _ & _ & Hq).
  unfold clampUnit, lit. by rewrite E, (Hq x).
Qed.

(** X5. Inside its range each risk is linear in the signal: distance is
    [miles / 1500], snaps are [1 - snaps / maxSnaps], playing time, win rate
    and NIL score are [1 - x], sentiment is [x]. *)
Theorem risks_are_linear_inside_their_ranges (x maxSnaps : Qc) :
  0 ≤ x →
  (x ≤ Q2Qc 1500 → riskFromDistance (VNum (Fin x)) = Fin (x / Q2Qc 1500))
  ∧ (x ≤ maxSnaps → 0 < maxSnaps →
     riskFromSnaps (VNum (Fin x)) (Fin maxSnaps) = Fin (1 - x / maxSnaps))
  ∧ (x ≤ 1 →
     riskFromPlayingTime (VNum (Fin x)) = Fin (1 - x)
     ∧ riskFromTeamPerformance (VNum (Fin x)) = Fin (1 - x)
     ∧ riskFromNIL (VNum (Fin x)) = Fin (1 - x)
     ∧ riskFromSocial (VNum (Fin x)) = Fin x).
Proof.
  intros H0. split_and!.
  - intros H1. unfold riskFromDistance. cbn [isNullish Number].
    rewrite (max0_nonneg x H0). by apply normalize_from_zero.
  - intros H1 Hhi. unfold riskFromSnaps. cbn [isNullish Number].
    rewrite (max0_nonneg x H0). by rewrite normalize_from_zero.
  - intros H1. pose proof (clampUnit_inside x H0 H1) as E. unfold clampUnit in E.
    unfold riskFromPlayingTime, riskFromTeamPerformance, riskFromNIL, riskFromSocial.
    cbn [isNullish Number]. by rewrite E.
Qed.

Lemma risks_are_linear_inside_their_ranges_witness :
  riskFromDistance (VNum (lit 300)) = Fin (Q2Qc 300 / Q2Qc 1500)
  ∧ riskFromSnaps (VNum (lit 300)) (lit 800) = Fin (1 - Q2Qc 300 / Q2Qc 800).
Proof.
  assert (Q2Qc 0 ≤ Q2Qc 300) as H0 by by_computation.
  assert (Q2Qc 300 ≤ Q2Qc 1500) as H1 by by_computation.
  assert (Q2Qc 300 ≤ Q2Qc 800) as H2 by by_computation.
  assert (Q2Qc 0 < Q2Qc 800) as H3 by by_computation.
  pose proof (risks_are_linear_inside_their_ranges (Q2Qc 300) (Q2Qc 800) H0) as H.
  split; [exact (proj1 H H1) | exact (proj1 (proj2 H) H2 H3)].
Defined.

(** *** Weights that switch a factor off *)

Lemma contributing_none (w : weightMap) (input : SignalRecord) :
  allSwitchedOff w = true → contributing w (computeFactors input) = [].
Proof.
  intros H. unfold allSwitchedOff in H. rewrite forallb_forall in H.
  assert (∀ e, e ∈ computeFactors input → carriesWeight w e.1 = false) as Hoff.
  { intros e He%factor_key_elem. apply list_elem_of_In, H in He.
    by apply negb_true_iff in He. }
  unfold contributing. induction (computeFactors input) as [|e l IH]; [done|].
  cbn [List.filter]. rewrite (Hoff e) by apply list_elem_of_here.
  apply IH. intros e' He'. apply Hoff. by apply list_elem_of_further.
Qed.

(** X6. When no factor carries a positive weight the probability is 50,
    whatever the signals. *)
Theorem no_positive_weight_gives_fifty (input : SignalRecord) (ws : weightMap) :
  allSwitchedOff (resolveWeights input ws) = true →
  probability (computeTransferProbability input ws) = lit 50.
Proof.
  intros H. rewrite probability_from_sums. cbv zeta.
  rewrite foldl_accumulate, (contributing_none _ input H). cbn [fmap list_fmap foldl fst snd].
  by_computation.
Qed.

Lemma no_positive_weight_gives_fifty_witness :
  probability
    (computeTransferProbability (nilOnly (VOther NaN))
       (list_to_map ((λ key, (key, Some (lit 0))) <$> FACTOR_KEYS)))
  = lit 50.
Proof.
  apply no_positive_weight_gives_fifty. vm_compute. reflexivity.
Defined.

Lemma get_insert (w : weightMap) (key k : string) (x : option num) :
  get (<[key := x]> w) k = if decide (key = k) then x else get w k.
Proof.
  unfold get. destruct (decide (key = k)) as [->|Hne].
  - by rewrite lookup_insert_eq.
  - by rewrite lookup_insert_ne.
Qed.

Lemma get_resolve_insert (input : SignalRecord) (ws : weightMap) (key k : string)
    (x : option num) :
  get (resolveWeights input (<[key := x]> ws)) k
  = if decide (key = k) then x else get (resolveWeights input ws) k.
Proof.
  rewrite !get_resolve. destruct (decide (key = k)) as [->|Hne].
  - by rewrite lookup_insert_eq.
  - by rewrite lookup_insert_ne.
Qed.

(** X7. A weight that is not greater than zero (zero, negative or [NaN])
    switches its factor off just as a [null] weight does: the probability
    and the factors are the same, and the breakdown differs at most in the
    weight and contribution reported for that factor. *)
Theorem non_positive_weight_is_ignored
    (input : SignalRecord) (ws : weightMap) (key : string) (v : num) :
  gtb v (lit 0) = false →
  let r := computeTransferProbability input (<[key := Some v]> ws) in
  let r' := computeTransferProbability input (<[key := None]> ws) in
  probability r = probability r'
  ∧ factors r = factors r'
  ∧ ∀ k, k ≠ key → prop (breakdown r) k = prop (breakdown r') k.
Proof.
  intros Hv. cbv zeta. split_and!.
  - rewrite !probability_from_sums. cbv zeta. f_equal.
    assert (foldl (accumulate (resolveWeights input (<[key:=Some v]> ws))) (lit 0, lit 0)
              (computeFactors input)
            = foldl (accumulate (resolveWeights input (<[key:=None]> ws))) (lit 0, lit 0)
                (computeFactors input)) as ->; [|done].
    apply foldl_ext_elem. intros [t s] [k risk] _. unfold accumulate.
    rewrite !get_resolve_insert. destruct (decide (key = k)); [|done].
    by rewrite Hv.
  - by rewrite !factors_computed.
  - intros k Hk. rewrite !breakdown_computed. unfold prop.
    induction (computeFactors input) as [|[k' risk] l IH]; [done|].
    cbn [fmap list_fmap list_to_map foldr breakdownEntry].
    destruct (decide (k' = k)) as [->|Hne].
    + rewrite !lookup_insert_eq. unfold getOrZero. rewrite !get_resolve_insert.
      by destruct (decide (key = k)).
    + rewrite !lookup_insert_ne by done. apply IH.
Qed.

Lemma non_positive_weight_is_ignored_witness :
  probability (computeTransferProbability lowestRisk
                 (<["nilCollectives" := Some (lit (-3))]> ∅))
  = probability (computeTransferProbability lowestRisk
                   (<["nilCollectives" := None]> ∅)).
Proof.
  assert (gtb (lit (-3)) (lit 0) = false) as H by by_computation.
  exact (proj1 (non_positive_weight_is_ignored lowestRisk ∅ "nilCollectives" (lit (-3)) H)).
Defined.

(** *** What the scorer reads of a signal *)

Lemma sameReading_inv (a b : value) :
  sameReading a b = true →
  isNullish a = isNullish b ∧ (isNullish a = false → Number a = Number b).
Proof.
  unfold sameReading. destruct (isNullish a), (isNullish b); cbn; try done.
  by intros ->%bool_decide_eq_true.
Qed.

Lemma sameReading_risks (a b : value) :
  sameReading a b = true →
  riskFromPlayingTime a = riskFromPlayingTime b
  ∧ riskFromDistance a = riskFromDistance b
  ∧ riskFromTeamPerformance a = riskFromTeamPerformance b
  ∧ riskFromNIL a = riskFromNIL b
  ∧ riskFromSnaps a (lit 800) = riskFromSnaps b (lit 800)
  ∧ riskFromSocial a = riskFromSocial b.
Proof.
  intros [Hn HN]%sameReading_inv.
  unfold riskFromPlayingTime, riskFromDistance, riskFromTeamPerformance, riskFromNIL,
    riskFromSnaps, riskFromSocial.
  rewrite <- Hn. destruct (isNullish a); [done|]. by rewrite HN.
Qed.

Lemma sameReading_recruiting (r r' p p' : value) :
  sameReading r r' = true → sameReading p p' = true →
  riskFromRecruiting
    (if negb (isNullish r)
     then VNum (if leb (Number r) (lit 1) then Number r else (Number r / lit 100)%js)
     else VNull) p
  = riskFromRecruiting
      (if negb (isNullish r')
       then VNum (if leb (Number r') (lit 1) then Number r' else (Number r' / lit 100)%js)
       else VNull) p'.
Proof.
  intros [Hr HR]%sameReading_inv [Hp HP]%sameReading_inv.
  rewrite <- Hr. destruct (isNullish r); cbn [negb].
  - done.
  - rewrite <- HR by done. unfold riskFromRecruiting. cbn [isNullish Number].
    rewrite <- Hp. destruct (isNullish p); [done|]. by rewrite HP.
Qed.

Lemma sameReadings_factors (a b : SignalRecord) :
  sameReadings a b = true → computeFactors a = computeFactors b.
Proof.
  unfold sameReadings. rewrite !andb_true_iff.
  intros ((((((Hpt & Hd) & Hr) & Hw) & Hn) & Hs) & Hso).
  unfold computeFactors.
  destruct (playingTime_passed_on (playingTime a)) as [-> ->].
  destruct (playingTime_passed_on (playingTime b)) as [-> ->].
  rewrite (sameReading_recruiting _ _ _ _ Hr Hpt).
  destruct (sameReading_risks _ _ Hpt) as (-> & _).
  destruct (sameReading_risks _ _ Hd) as (_ & -> & _).
  destruct (sameReading_risks _ _ Hw) as (_ & _ & -> & _).
  destruct (sameReading_risks _ _ Hn) as (_ & _ & _ & -> & _).
  destruct (sameReading_risks _ _ Hs) as (_ & _ & _ & _ & -> & _).
  destruct (sameReading_risks _ _ Hso) as (_ & _ & _ & _ & _ & ->).
  done.
Qed.

(** X8. The scorer reads a signal only through [== null] and [Number]:
    two records whose signals are pairwise both absent, or read as the same
    number, and that embed the same weights, get the same result.  So
    [null] scores as [undefined], and a numeric string as its number. *)
Theorem result_depends_on_readings_only (a b : SignalRecord) (ws : weightMap) :
  sameReadings a b = true → weights a = weights b →
  computeTransferProbability a ws = computeTransferProbability b ws.
Proof.
  intros H Hw. apply compute_ext; [by apply sameReadings_factors|].
  intros key _. unfold resolveWeights. by rewrite Hw.
Qed.

Lemma result_depends_on_readings_only_witness :
  computeTransferProbability
    (mkSignalRecord (VOther (lit 0.3)) VNull (VOther (lit 85)) VUndefined
       (VOther (lit 1)) VNull (VNum (lit 0.5)) None) ∅
  = computeTransferProbability
      (mkSignalRecord (VNum (lit 0.3)) VUndefined (VNum (lit 85)) VNull
         (VNum (lit 1)) VUndefined (VOther (lit 0.5)) None) ∅.
Proof.
  apply result_depends_on_readings_only; vm_compute; reflexivity.
Defined.

(** *** The ends of the recruiting risk *)

Lemma clampedRecruitingRisk_Fin (n : num) (pt : value) :
  isNaN n = false → numericOrAbsent pt = true →
  ∃ a u, clampUnit (statedNormalizedRank n) = Fin a ∧ 0 ≤ a ∧ a ≤ 1
         ∧ (if isNullish pt then lit 0.5 else clampUnit (Number pt)) = Fin u
         ∧ 0 ≤ u ∧ u ≤ 1
         ∧ clampedRecruitingRisk n pt = Fin (a * (1 - u)).
Proof.
  intros Hn Hpt.
  destruct (clampUnit_Fin (statedNormalizedRank n)) as (a & Ea & Ha0 & Ha1).
  { by apply normalized_rank_not_NaN. }
  assert (∃ u, (if isNullish pt then lit 0.5 else clampUnit (Number pt)) = Fin u
               ∧ 0 ≤ u ∧ u ≤ 1) as (u & Eu & Hu0 & Hu1).
  { destruct (isNullish pt) eqn:E.
    - eexists. split; [reflexivity|]. split; by_computation.
    - apply clampUnit_Fin. by apply numeric_present. }
  exists a, u. split_and!; try done.
  unfold clampedRecruitingRisk. by rewrite Ea, Eu.
Qed.

Lemma Qcmult_le_1 (a c : Qc) : a ≤ 1 → 0 ≤ c → a * c ≤ c.
Proof.
  intros Ha Hc. etrans; [by apply Qcmult_le_compat_r|]. by rewrite Qcmult_1_l.
Qed.

(** X9. The recruiting risk of a rated player is zero when the playing time
    is 1 or more, or when the rating is zero or less; it is at most one half
    when the playing time is absent; and it never exceeds what is left of
    the playing time, [1 - playingTime] clamped. *)
Theorem recruiting_risk_extremes (input : SignalRecord) (ws : weightMap) :
  isNullish (recruitingRank input) = false →
  isNaN (Number (recruitingRank input)) = false →
  numericOrAbsent (playingTime input) = true →
  ∃ q, prop (factors (computeTransferProbability input ws)) "recruitingRank"
       = Some (Fin q)
    ∧ 0 ≤ q
    ∧ (isNullish (playingTime input) = false →
       leb (lit 1) (Number (playingTime input)) = true → q = 0)
    ∧ (leb (Number (recruitingRank input)) (lit 0) = true → q = 0)
    ∧ (isNullish (playingTime input) = true → q ≤ Q2Qc (1 # 2))
    ∧ (isNullish (playingTime input) = false →
       leb (Fin q) (riskFromPlayingTime (playingTime input)) = true).
Proof.
  intros Hr Hn Hpt. rewrite (recruiting_risk_formula input ws Hr).
  destruct (clampedRecruitingRisk_Fin _ _ Hn Hpt)
    as (a & u & Ea & Ha0 & Ha1 & Eu & Hu0 & Hu1 & ->).
  assert (0 ≤ 1 - u) as Hc by (by apply (proj1 (Qcminus_nonneg u 1))).
  exists (a * (1 - u)). split_and!; try done.
  - by apply Qcmult_nonneg_nonneg.
  - intros Hp Hfull. rewrite Hp in Eu.
    destruct (clamp_spec _ _ (Number (playingTime input)) unit_bounds
                (numeric_present _ Hpt Hp)) as (u' & Eu' & _ & _ & _ & Hup & _).
    unfold clampUnit, lit in *. rewrite Eu' in Eu. injection Eu as <-.
    rewrite (Hup Hfull). ring.
  - intros Hzero.
    assert (Number (recruitingRank input) = statedNormalizedRank (Number (recruitingRank input)))
      as E.
    { unfold statedNormalizedRank.
      destruct (leb (Number (recruitingRank input)) (lit 1)) eqn:E1; [done|].
      assert (leb (Number (recruitingRank input)) (lit 1) = true) as E2; [|congruence].
      eapply leb_trans; [exact Hzero|]. by_computation. }
    rewrite <- E in Ea.
    destruct (clamp_spec _ _ (Number (recruitingRank input)) unit_bounds Hn)
      as (a' & Ea' & _ & _ & Hlo & _).
    unfold clampUnit, lit in *. rewrite Ea' in Ea. injection Ea as <-.
    rewrite (Hlo Hzero). ring.
  - intros Hp. rewrite Hp in Eu. unfold lit in Eu. injection Eu as <-.
    assert (1 - Q2Qc 0.5 = Q2Qc (1 # 2)) as -> by by_computation.
    apply Qcmult_le_1; [done|by_computation].
  - intros Hp. rewrite Hp in Eu. unfold riskFromPlayingTime. rewrite Hp.
    unfold clampUnit in Eu. rewrite Eu. apply leb_Fin. by apply Qcmult_le_1.
Qed.

Lemma recruiting_risk_extremes_witness :
  ∃ q, prop (factors (computeTransferProbability
                        (recruitOnly (VNum (lit 90)) (VNum (lit 1))) ∅))
            "recruitingRank" = Some (Fin q)
       ∧ q = 0.
Proof.
  destruct (recruiting_risk_extremes (recruitOnly (VNum (lit 90)) (VNum (lit 1))) ∅
              eq_refl eq_refl eq_refl) as (q & E & _ & Hfull & _).
  exists q. split; [exact E|]. apply Hfull; vm_compute; reflexivity.
Defined.
End ScorerLaws.

Module AggregatorLaws.

Import JS Text Aggregator ScorerSpec ScorerTerms AggregatorSpec AggregatorTerms NumFacts.

Lemma div_pos_Fin (q c : Qc) : 0 < c → (Fin q / Fin c)%js = Fin (q / c).
Proof.
  intros Hc. cbn. destruct (decide (c = 0)) as [->|_]; [|done].
  by apply Qclt_not_eq in Hc.
Qed.

Lemma Qcdiv_le_1 (q c : Qc) : 0 < c → q ≤ c → q / c ≤ 1.
Proof.
  intros Hc H. unfold Qcdiv.
  rewrite <- (Qcmult_inv_r c) by (by apply not_eq_sym, Qclt_not_eq).
  apply Qcmult_le_compat_r; [done|]. by apply Qclt_le_weak, Qcinv_pos.
Qed.

Lemma Qcdiv_nonneg (q c : Qc) : 0 < c → 0 ≤ q → 0 ≤ q / c.
Proof.
  intros Hc H. unfold Qcdiv. apply Qcmult_nonneg_nonneg; [done|].
  by apply Qclt_le_weak, Qcinv_pos.
Qed.

Lemma leb_lit (q : Qc) (c : Q) : leb (Fin q) (lit c) = true ↔ q ≤ Q2Qc c.
Proof. unfold lit. cbn. apply bool_decide_eq_true. Qed.

Lemma lit_leb (q : Qc) (c : Q) : leb (lit c) (Fin q) = true ↔ Q2Qc c ≤ q.
Proof. unfold lit. cbn. apply bool_decide_eq_true. Qed.

(** One branch of [normalizeRecruitingRating]: a rating up to [c] over [c]. *)
Lemma scaled_rating (q : Qc) (c : Q) :
  0 < Q2Qc c → leb (Fin q) (lit c) = true →
  ∃ q', (Fin q / lit c)%js = Fin q' ∧ q' ≤ 1 ∧ (0 ≤ q → 0 ≤ q').
Proof.
  intros Hc H%leb_lit. exists (q / Q2Qc c). unfold lit. rewrite div_pos_Fin by done.
  split_and!; [done|by apply Qcdiv_le_1|]. intros. by apply Qcdiv_nonneg.
Qed.

(** X10. [normalizeRecruitingRating] gives [null] exactly for a rating that
    is [null] or [NaN]; any other rating comes out at most 1, not negative
    when the rating is not, and unchanged when it is at most 1. *)
Theorem normalized_rating_is_at_most_one (rating : option num) :
  (normalizeRecruitingRating rating = None ↔ rating = None ∨ rating = Some NaN)
  ∧ ∀ r r', normalizeRecruitingRating rating = Some r' → rating = Some r →
      leb r' (lit 1) = true
      ∧ (leb (lit 0) r = true → leb (lit 0) r' = true)
      ∧ (leb r (lit 1) = true → r' = r).
Proof.
  split.
  - destruct rating as [[| |q|]|]; unfold normalizeRecruitingRating; cbn [isNaN].
    + split; [by right|done].
    + cbn. split; [done|by intros [|]].
    + repeat (destruct (leb _ _)); (split; [done|by intros [|]]).
    + cbn. split; [done|by intros [|]].
    + split; [by left|done].
  - intros r r' H ->. unfold normalizeRecruitingRating in H.
    destruct (isNaN r) eqn:Hn; [done|].
    destruct (leb r (lit 1)) eqn:H1; [by injection H as <-|].
    split_and!; [| |done].
    + destruct r as [| |q|]; try done.
      * destruct (leb (Fin q) (lit 5)) eqn:H5.
        { destruct (scaled_rating q 5) as (q' & E & ? & _); [by_computation|done|].
          rewrite E in H. injection H as <-. by apply leb_lit. }
        destruct (leb (Fin q) (lit 100)) eqn:H100.
        { destruct (scaled_rating q 100) as (q' & E & ? & _); [by_computation|done|].
          rewrite E in H. injection H as <-. by apply leb_lit. }
        destruct (leb (Fin q) (lit 255)) eqn:H255.
        { destruct (scaled_rating q 255) as (q' & E & ? & _); [by_computation|done|].
          rewrite E in H. injection H as <-. by apply leb_lit. }
        assert ((Fin q / lit 300)%js = Fin (q / Q2Qc 300)) as E
          by (apply div_pos_Fin; by_computation).
        rewrite E in H. injection H as <-. unfold lit.
        cbn. case_bool_decide; cbn; apply bool_decide_eq_true; [by apply Qclt_le_weak|done].
      * cbn in H. injection H as <-. by_computation.
    + intros H0. destruct r as [| |q|]; try done.
      * apply lit_leb in H0.
        destruct (leb (Fin q) (lit 5)) eqn:H5.
        { destruct (scaled_rating q 5) as (q' & E & _ & Hq); [by_computation|done|].
          rewrite E in H. injection H as <-. by apply lit_leb, Hq. }
        destruct (leb (Fin q) (lit 100)) eqn:H100.
        { destruct (scaled_rating q 100) as (q' & E & _ & Hq); [by_computation|done|].
          rewrite E in H. injection H as <-. by apply lit_leb, Hq. }
        destruct (leb (Fin q) (lit 255)) eqn:H255.
        { destruct (scaled_rating q 255) as (q' & E & _ & Hq); [by_computation|done|].
          rewrite E in H. injection H as <-. by apply lit_leb, Hq. }
        assert ((Fin q / lit 300)%js = Fin (q / Q2Qc 300)) as E
          by (apply div_pos_Fin; by_computation).
        rewrite E in H. injection H as <-. unfold lit.
        cbn. case_bool_decide; cbn; apply bool_decide_eq_true; [|by_computation].
        apply Qcdiv_nonneg; [by_computation|done].
      * cbn in H. injection H as <-. by_computation.
Qed.


(** *** Numbers read from the rows *)

Lemma pickNum_numeric (values : list value) (n : num) :
  pickNum values = Some n → isNaN n = false.
Proof.
  induction values as [|v rest IH]; [done|]. cbn [pickNum].
  destruct (isNullish v); cbn [negb andb]; [done|].
  destruct (isNaN (Number v)) eqn:E; cbn [negb]; [done|]. by intros [= <-].
Qed.

Lemma finite_count (a b : option num) :
  finiteOrAbsent a = true → finiteOrAbsent b = true →
  ∃ q, default (lit 0) (orNum a b) = Fin q.
Proof.
  destruct a as [[| |q|]|]; try done; intros _; [by exists q|].
  destruct b as [[| |q|]|]; try done; intros _; [by exists q|by eexists].
Qed.

Lemma finiteTally_inv (t : Season.tally) :
  finiteTally t = true →
  finiteOrAbsent (Season.total_wins t) = true ∧ finiteOrAbsent (Season.wins t) = true
  ∧ finiteOrAbsent (Season.total_losses t) = true ∧ finiteOrAbsent (Season.losses t) = true
  ∧ finiteOrAbsent (Season.total_games t) = true ∧ finiteOrAbsent (Season.games t) = true.
Proof. unfold finiteTally. rewrite !andb_true_iff. tauto. Qed.

Lemma or_else_Fin (a b : Qc) : ∃ q, JS.or_else (Fin a) (Fin b) = Fin q.
Proof. unfold JS.or_else. destruct (falsy (Fin a)); by eexists. Qed.

Lemma div_Fin_positive (a b : Qc) :
  gtb (Fin b) (lit 0) = true → (Fin a / Fin b)%js = Fin (a / b).
Proof. intros H%bool_decide_eq_true. by apply div_pos_Fin. Qed.

Lemma findTeamRecord_member (records : list Season.t) (year : num) (team : string)
    (season : Season.t) :
  findTeamRecord records year team = Some season → season ∈ records.
Proof.
  unfold findTeamRecord. destruct (List.find _ records) eqn:E.
  - intros [= <-]. by apply find_some in E as [?%list_elem_of_In _].
  - intros H. by apply find_some in H as [?%list_elem_of_In _].
Qed.

Lemma findTeamRecord_finite (records : list Season.t) (year : num) (team : string)
    (season : Season.t) :
  forallb finiteSeason records = true →
  findTeamRecord records year team = Some season → finiteSeason season = true.
Proof.
  intros Hall Hfind%findTeamRecord_member. rewrite forallb_forall in Hall.
  by apply Hall, list_elem_of_In.
Qed.

Lemma winRateFromRecords_numeric (records : list Season.t) (year : num) (team : string) :
  forallb finiteSeason records = true →
  isNaN (winRateFromRecords records year team) = false.
Proof.
  intros Hall. unfold winRateFromRecords.
  destruct (findTeamRecord records year team) as [season|] eqn:E; [|done].
  pose proof (findTeamRecord_finite _ _ _ _ Hall E) as Hs.
  unfold finiteSeason in Hs. apply andb_true_iff in Hs as [Hown Htotal].
  assert (finiteTally (default (Season.own season) (Season.total season)) = true) as Hrec.
  { by destruct (Season.total season). }
  destruct (finiteTally_inv _ Hrec) as (Htw & Hw & Htl & Hl & Htg & Hg).
  cbv zeta.
  destruct (finite_count _ _ Htw Hw) as (wins & ->).
  destruct (finite_count _ _ Htl Hl) as (losses & ->).
  destruct (finite_count _ _ Htg Hg) as (games & ->).
  cbn [add]. destruct (or_else_Fin games (wins + losses)) as (g1 & ->).
  change (lit 1) with (Fin (Q2Qc 1)). destruct (or_else_Fin g1 (Q2Qc 1)) as (g & ->).
  destruct (gtb (Fin g) (lit 0)) eqn:Hpos; [|done].
  by rewrite div_Fin_positive.
Qed.


Lemma count_ratio_numeric {A B} (won : list A) (played : list B) :
  isNaN (if gtb (count played) (lit 0) then (count won / count played)%js else lit 0.5)
  = false.
Proof.
  destruct (gtb (count played) (lit 0)) eqn:H; [|done].
  unfold count in *. by rewrite div_Fin_positive.
Qed.

Lemma getWinRate_numeric (api : Api) (year : num) (team : string) :
  forallb finiteSeason (catchEmpty (getTeamRecords api year team)) = true →
  isNaN (getWinRate api year team) = false.
Proof.
  intros Hall. unfold getWinRate.
  destruct (getTeamRecords api year team) as [msg|records]; [done|].
  cbn [catchEmpty] in Hall.
  assert (isNaN (match getTeamGames api year team "regular" with
                 | Failed _ => lit 0.5
                 | Returned games =>
                     if gtb (count games) (lit 0)
                     then (count (List.filter (wonBy team) games) / count games)%js
                     else lit 0.5
                 end) = false) as Hgames.
  { destruct (getTeamGames api year team "regular"); [done|apply count_ratio_numeric]. }
  destruct (findTeamRecord records year team) as [season|] eqn:E; [|done].
  pose proof (findTeamRecord_finite _ _ _ _ Hall E) as Hs.
  unfold finiteSeason in Hs. apply andb_true_iff in Hs as [Hown Htotal].
  destruct (finiteTally_inv _ Hown) as (_ & Hw & _ & Hl & _ & _).
  assert (finiteOrAbsent (Season.total season ≫= Season.wins) = true
          ∧ finiteOrAbsent (Season.total season ≫= Season.losses) = true) as [Htw Htl].
  { destruct (Season.total season) as [t|]; [|done].
    destruct (finiteTally_inv _ Htotal) as (_ & ? & _ & ? & _). done. }
  cbv zeta.
  destruct (finite_count _ _ Htw Hw) as (wins & ->).
  destruct (finite_count _ _ Htl Hl) as (losses & ->).
  cbn [add].
  match goal with |- context [if ?c then Fin (wins + losses) else lit 0] =>
    destruct c end.
  - destruct (gtb (Fin (wins + losses)) (lit 0)) eqn:Hpos; [|done].
    by rewrite div_Fin_positive.
  - by replace (gtb (lit 0) (lit 0)) with false by by_computation.
Qed.

Lemma normalizeRecruitingRating_numeric (rating : option num) (r : num) :
  normalizeRecruitingRating rating = Some r → isNaN r = false.
Proof.
  destruct rating as [[| |q|]|]; try done; unfold normalizeRecruitingRating, lit;
    cbn [isNaN].
  - cbn. by intros [= <-].
  - repeat (destruct (leb (Fin q) _));
      rewrite ?div_pos_Fin by by_computation; try (by intros [= <-]).
    cbn. case_bool_decide; by intros [= <-].
  - cbn. by intros [= <-].
Qed.

Lemma recruitingSignal_numeric (row : option Recruit.t) :
  numericOrAbsent (orUndefined (recruitingSignal row)) = true.
Proof.
  destruct (recruitingSignal row) as [r|] eqn:E; [|done].
  destruct row as [p|]; [|done]. cbn [recruitingSignal] in E.
  apply normalizeRecruitingRating_numeric in E.
  unfold numericOrAbsent. cbn. by rewrite E.
Qed.

(** [arr.reduce((a, b) => a + (Number(b) || 0), 0)] over finite counts. *)
Lemma snap_total_finite (arr : list value) (a : Qc) :
  forallb (λ b, negb (isInfinite (Number b))) arr = true →
  ∃ q, foldl (λ a b, (a + JS.or_else (Number b) (lit 0))%js) (Fin a) arr = Fin q.
Proof.
  revert a. induction arr as [|b arr IH]; intros a; [by exists a|].
  cbn [forallb foldl]. intros [Hb Hrest]%andb_true_iff.
  assert (∃ x, JS.or_else (Number b) (lit 0) = Fin x) as (x & ->).
  { unfold JS.or_else. destruct (Number b) as [| |x|]; try done; cbn [falsy];
      [by eexists|]. destruct (bool_decide (x = 0)); by eexists. }
  cbn [add]. by apply IH.
Qed.

Lemma snap_path_numeric (arr : list value) :
  forallb (λ b, negb (isInfinite (Number b))) arr = true →
  let total := foldl (λ a b, (a + JS.or_else (Number b) (lit 0))%js) (lit 0) arr in
  numericOrAbsent (VNum (Math_min (lit 1) (total / (lit 70 * lit 12))%js)) = true
  ∧ numericOrAbsent (VNum total) = true.
Proof.
  intros Hfin. destruct (snap_total_finite arr (Q2Qc 0) Hfin) as (q & E).
  change (Fin (Q2Qc 0)) with (lit 0) in E. cbv zeta. rewrite E. split; [|done].
  unfold lit. cbn [mul]. rewrite div_pos_Fin by by_computation.
  unfold numericOrAbsent. cbn. by case_bool_decide.
Qed.

Lemma usageSignals_numeric (row : option Usage.t) :
  (match row with Some u => finiteCounts u | None => true end) = true →
  numericOrAbsent (orUndefined (usageSignals row).1) = true
  ∧ numericOrAbsent (orUndefined (usageSignals row).2) = true.
Proof.
  destruct row as [u|]; [|done]. intros Hfin. unfold usageSignals.
  destruct (pickNum [Usage.usg_overall u; Usage.usage_overall u; Usage.usage u;
                     Usage.usageOverall u]) as [p|] eqn:Ep.
  - apply pickNum_numeric in Ep.
    assert (∀ c k, (let '(playingTime, snapsPlayed) :=
                      match (if gtb p (lit 1) then Some (p / lit 100)%js else Some p), c
                      with
                      | None, Some arr => k arr
                      | _, _ => (if gtb p (lit 1) then Some (p / lit 100)%js else Some p,
                                 None)
                      end in
                    (playingTime,
                     match snapsPlayed with
                     | Some s => Some s
                     | None => pickNum [Usage.snaps u; Usage.snap_count u;
                                        Usage.totalSnaps u]
                     end))
                   = (if gtb p (lit 1) then Some (p / lit 100)%js else Some p,
                      pickNum [Usage.snaps u; Usage.snap_count u; Usage.totalSnaps u]))
      as -> by (intros; by destruct (gtb p (lit 1))).
    cbn [fst snd]. split.
    + unfold numericOrAbsent. destruct (gtb p (lit 1)); cbn; [|by rewrite Ep].
      by destruct p.
    + destruct (pickNum [Usage.snaps u; _; _]) as [s|] eqn:Es; [|done].
      apply pickNum_numeric in Es. unfold numericOrAbsent. cbn. by rewrite Es.
  - unfold finiteCounts in Hfin.
    destruct (Usage.snap_counts u) as [|arr|n]; cbn [fst snd].
    + split; [done|].
      destruct (pickNum [Usage.snaps u; _; _]) as [s|] eqn:Es; [|done].
      apply pickNum_numeric in Es. unfold numericOrAbsent. cbn. by rewrite Es.
    + by apply snap_path_numeric.
    + destruct (falsy n) eqn:Hn; cbn [fst snd].
      * split; [done|].
        destruct (pickNum [Usage.snaps u; _; _]) as [s|] eqn:Es; [|done].
        apply pickNum_numeric in Es. unfold numericOrAbsent. cbn. by rewrite Es.
      * destruct n as [| |q|]; try done.
        by apply (snap_path_numeric [VNum (Fin q)]).
Qed.


(** *** The chosen rows *)

Lemma selectRow_member {A} (rowName : A → option string) (playerName : option string)
    (rows : list A) (row : A) :
  selectRow rowName playerName rows = Some row → row ∈ rows.
Proof.
  unfold selectRow.
  destruct (if truthy playerName then _ else None) as [p|] eqn:E.
  - intros [= <-]. destruct (truthy playerName); [|done].
    by apply find_some in E as [?%list_elem_of_In _].
  - destruct rows; [done|]. intros [= <-]. apply list_elem_of_here.
Qed.

Lemma distanceSignal_numeric (d : value) (row : option Roster.t) (team : string) :
  numericOrAbsent d = true → numericOrAbsent (distanceSignal d row team) = true.
Proof.
  intros Hd. unfold distanceSignal. destruct row as [p|]; [|done].
  destruct (isNullish d); [|done].
  destruct (pickStr _); [|done]. by destruct (_ && _).
Qed.

Lemma nullish_or_numeric (v : value) :
  numericOrAbsent v = true → numericOrAbsent (nullish_or v VUndefined) = true.
Proof. unfold nullish_or. by destruct (isNullish v). Qed.

(** Lines 120-224 hand the scorer only signals that it can read. *)
Lemma aggregateFor_wellFormed (api : Api) (year : num) (team : string)
    (playerName : option string) (d n s : value) :
  finiteRows api year team = true →
  numericOrAbsent d = true → numericOrAbsent n = true → numericOrAbsent s = true →
  wellFormed (Cli.asSignalRecord (aggregateFor api year team playerName d n s)) = true.
Proof.
  intros [Hseasons Husage]%andb_true_iff Hd Hn Hs.
  unfold aggregateFor. cbv zeta.
  pose proof (usageSignals_numeric
    (selectRow (λ p, pickStr [Usage.player p; Usage.name p]) playerName
       (catchEmpty (getPlayerUsage api year team)))) as Hu.
  destruct (usageSignals _) as [playingTime snapsPlayed]. cbn [fst snd] in Hu.
  destruct Hu as [Hpt Hsn].
  { destruct (selectRow _ _ _) as [u|] eqn:E; [|done].
    apply selectRow_member in E. rewrite forallb_forall in Husage.
    by apply Husage, list_elem_of_In. }
  unfold wellFormed, Cli.asSignalRecord. cbn.
  rewrite Hpt, Hsn, (distanceSignal_numeric _ _ _ Hd), recruitingSignal_numeric,
    (nullish_or_numeric _ Hn), (nullish_or_numeric _ Hs). cbn.
  rewrite andb_true_r. unfold numericOrAbsent. cbn.
  case_bool_decide.
  - by rewrite getWinRate_numeric.
  - by rewrite winRateFromRecords_numeric.
Qed.

Lemma aggregate_wellFormed (api : Api) (opts : Opts.t) (out : Out.t) :
  (∀ team, finiteRows api (Opts.year opts) team = true) →
  numericOverrides opts = true →
  aggregatePlayerInput api opts = Resolves out →
  wellFormed (Cli.asSignalRecord out) = true.
Proof.
  intros Hrows Hov Hout. unfold numericOverrides in Hov.
  apply andb_true_iff in Hov as [[Hd Hn]%andb_true_iff Hs].
  apply AggregatorProofs.aggregate_resolves in Hout as (team & playerName & ->).
  by apply aggregateFor_wellFormed.
Qed.


(** X11. When the rows of the source carry finite tallies and snap counts
    and the three overrides are absent or numeric, every signal of the
    aggregated record is absent or numeric: the scorer can read all of
    them. *)
Theorem aggregated_record_is_well_formed (api : Api) (opts : Opts.t) (out : Out.t) :
  (∀ team, finiteRows api (Opts.year opts) team = true) →
  numericOverrides opts = true →
  aggregatePlayerInput api opts = Resolves out →
  wellFormed (Cli.asSignalRecord out) = true.
Proof. apply aggregate_wellFormed. Qed.

Lemma aggregated_record_is_well_formed_witness :
  ∃ out, aggregatePlayerInput buckeyes everyOverride = Resolves out
         ∧ wellFormed (Cli.asSignalRecord out) = true.
Proof.
  eexists. split; [reflexivity|].
  apply (aggregated_record_is_well_formed buckeyes everyOverride).
  - intros team. vm_compute. reflexivity.
  - vm_compute. reflexivity.
  - reflexivity.
Defined.

(** X12. The command line's pipeline, aggregation then scoring: under the
    same conditions, when it produces a result its probability is a multiple
    of 0.1 between 0 and 100. *)
Theorem score_is_a_percentage (api : Api) (opts : Opts.t) (r : Scorer.Result) :
  (∀ team, finiteRows api (Opts.year opts) team = true) →
  numericOverrides opts = true →
  Cli.score api opts = Resolves r →
  ∃ k : Z, (0 ≤ k ≤ 1000)%Z ∧ Scorer.probability r = Fin (Qc_of_Z k / Q2Qc 10).
Proof.
  intros Hrows Hov. unfold Cli.score.
  destruct (aggregatePlayerInput api opts) as [out|e] eqn:E; [|done].
  intros [= <-]. apply ScorerLaws.probability_on_grid.
  - by eapply aggregate_wellFormed.
  - by_computation.
Qed.

Lemma score_is_a_percentage_witness :
  ∃ r (k : Z), Cli.score buckeyes everyOverride = Resolves r
    ∧ (0 ≤ k ≤ 1000)%Z ∧ Scorer.probability r = Fin (Qc_of_Z k / Q2Qc 10).
Proof.
  eexists.
  destruct (score_is_a_percentage buckeyes everyOverride _
              (λ team, eq_refl) eq_refl eq_refl) as (k & Hk & E).
  exists k. split; [reflexivity|]. split; [exact Hk|exact E].
Defined.

(** *** A source without data *)

Lemma selectRow_nil {A} (rowName : A → option string) (playerName : option string) :
  selectRow rowName playerName [] = None.
Proof. unfold selectRow. by destruct (truthy playerName). Qed.

Lemma getWinRate_noData (api : Api) (year : num) (team : string) :
  catchEmpty (getTeamRecords api year team) = [] →
  catchEmpty (getTeamGames api year team "regular") = [] →
  getWinRate api year team = lit 0.5.
Proof.
  intros Hr Hg. unfold getWinRate.
  destruct (getTeamRecords api year team) as [|records]; [done|].
  cbn in Hr. subst records. cbn.
  destruct (getTeamGames api year team "regular") as [|games]; [done|].
  cbn in Hg. by subst games.
Qed.

Lemma aggregateFor_noData (api : Api) (year : num) (team : string)
    (playerName : option string) (d n s : value) :
  noData api year team = true →
  aggregateFor api year team playerName d n s
  = {| Out.playingTime := VUndefined;
       Out.distanceFromHighSchoolMiles := d;
       Out.recruitingRank := VUndefined;
       Out.teamWinRate := VNum (lit 0.5);
       Out.nilScore := nullish_or n VUndefined;
       Out.snapsPlayed := VUndefined;
       Out.socialSentiment := nullish_or s VUndefined;
       Out._meta := {| Meta.playerName := playerName; Meta.team := team;
                       Meta.year := year |} |}.
Proof.
  unfold noData. rewrite !andb_true_iff, !bool_decide_eq_true.
  intros ((((Hu & Hro) & Hre) & Hrec) & Hg).
  unfold aggregateFor. rewrite Hu, Hro, Hre, Hrec, !selectRow_nil.
  rewrite (getWinRate_noData _ _ _ Hrec Hg). done.
Qed.


(** With a team given, lines 106-118 change nothing and raise nothing. *)
Lemma aggregate_with_team (api : Api) (opts : Opts.t) :
  blank (Opts.team opts) = false →
  aggregatePlayerInput api opts
  = Resolves (aggregateFor api (Opts.year opts) (or_empty (Opts.team opts))
                (Opts.playerName opts) (Opts.distanceFromHighSchoolMiles opts)
                (Opts.nilScore opts) (Opts.socialSentiment opts)).
Proof.
  intros H. unfold aggregatePlayerInput. rewrite H. cbn [andb]. cbv zeta.
  by rewrite H.
Qed.

(** X13. When a team is given and every data query fails or comes back
    empty, aggregation still resolves: the win rate is the neutral 0.5, the
    other derived signals are absent, and the overrides pass through.
    Without overrides the score is then exactly 50, every factor at 0.5. *)
Theorem source_without_data_scores_fifty (api : Api) (opts : Opts.t) :
  blank (Opts.team opts) = false →
  noData api (Opts.year opts) (or_empty (Opts.team opts)) = true →
  aggregatePlayerInput api opts
  = Resolves
      {| Out.playingTime := VUndefined;
         Out.distanceFromHighSchoolMiles := Opts.distanceFromHighSchoolMiles opts;
         Out.recruitingRank := VUndefined;
         Out.teamWinRate := VNum (lit 0.5);
         Out.nilScore := nullish_or (Opts.nilScore opts) VUndefined;
         Out.snapsPlayed := VUndefined;
         Out.socialSentiment := nullish_or (Opts.socialSentiment opts) VUndefined;
         Out._meta := {| Meta.playerName := Opts.playerName opts;
                         Meta.team := or_empty (Opts.team opts);
                         Meta.year := Opts.year opts |} |}
  ∧ (noOverrides opts = true →
     ∃ r, Cli.score api opts = Resolves r
          ∧ Scorer.probability r = lit 50
          ∧ Scorer.factors r = (λ key, (key, lit 0.5)) <$> Scorer.FACTOR_KEYS).
Proof.
  intros Hteam Hno.
  pose proof (aggregate_with_team api opts Hteam) as E.
  rewrite (aggregateFor_noData _ _ _ _ _ _ _ Hno) in E.
  split; [exact E|].
  unfold noOverrides. rewrite !andb_true_iff. intros [[Hd Hn] Hs].
  unfold Cli.score. rewrite E. eexists. split; [reflexivity|].
  unfold Cli.asSignalRecord, nullish_or. cbn. rewrite Hn, Hs.
  destruct (Opts.distanceFromHighSchoolMiles opts); try done; split; by_computation.
Qed.

Lemma source_without_data_scores_fifty_witness :
  ∃ r, Cli.score (onlySearch [])
         (Opts.make (lit 2024) (Some "Alabama") None VUndefined VUndefined VUndefined
            VUndefined VUndefined VUndefined VUndefined) = Resolves r
       ∧ Scorer.probability r = lit 50.
Proof.
  destruct (source_without_data_scores_fifty (onlySearch [])
              (Opts.make (lit 2024) (Some "Alabama") None VUndefined VUndefined VUndefined
                 VUndefined VUndefined VUndefined VUndefined) eq_refl eq_refl)
    as [_ H].
  destruct (H eq_refl) as (r & E & Hp & _). by exists r.
Defined.


(** *** Which row is read *)

(** X14. [findTeamRecord] returns a row of the list that names the team, or
    a row of the requested season that names no team; it prefers a row of
    the requested season; and it finds nothing only when no row qualifies. *)
Theorem team_record_is_sound (records : list Season.t) (year : num) (team : string) :
  match findTeamRecord records year team with
  | Some season =>
      season ∈ records
      ∧ (teamIs season team = true
         ∨ seasonIs season year = true ∧ truthy (Season.team season) = false)
      ∧ ((∃ r, r ∈ records ∧ seasonIs r year = true ∧ teamIs r team = true) →
         seasonIs season year = true)
  | None =>
      ∀ r, r ∈ records →
        teamIs r team = false
        ∧ (seasonIs r year = true → truthy (Season.team r) = true)
  end.
Proof.
  unfold findTeamRecord.
  destruct (List.find (λ r, seasonIs r year && (teamIs r team || negb (truthy (Season.team r))))
              records) as [season|] eqn:E.
  - apply find_some in E as [Hin [Hy Ht]%andb_true_iff]. split_and!.
    + by apply list_elem_of_In.
    + apply orb_true_iff in Ht as [Ht|Ht]; [by left|right].
      split; [done|]. by apply negb_true_iff.
    + done.
  - pose proof (find_none _ _ E) as Hnone. cbn beta in Hnone.
    destruct (List.find (λ r, teamIs r team) records) as [season|] eqn:E2.
    + apply find_some in E2 as [Hin Ht]. split_and!.
      * by apply list_elem_of_In.
      * by left.
      * intros (r & Hr%list_elem_of_In & Hy & Hteam).
        apply Hnone in Hr. by rewrite Hy, Hteam in Hr.
    + pose proof (find_none _ _ E2) as Hnone2. cbn beta in Hnone2.
      intros r Hr%list_elem_of_In. split; [by apply Hnone2|].
      intros Hy. specialize (Hnone r Hr). rewrite Hy, (Hnone2 r Hr) in Hnone.
      cbn in Hnone. by apply negb_false_iff in Hnone.
Qed.






(** *** Resolving a player by name *)

Lemma prefix_refl (s : string) : String.prefix s s = true.
Proof.
  induction s as [|a s IH]; [done|]. cbn.
  destruct (ascii_dec a a); [done|congruence].
Qed.

Lemma includes_refl (s : string) : includes s s = true.
Proof. destruct s; cbn [includes]; by rewrite prefix_refl. Qed.

Lemma findMatch_sound (rows : list Candidate.t) (nameLower : string) (m : Candidate.t) :
  findMatch rows nameLower = Some m →
  m ∈ rows ∧ includes (toLowerCase (candidateName m)) nameLower = true.
Proof.
  unfold findMatch. destruct (List.find _ rows) as [p|] eqn:E.
  - intros [= <-]. apply find_some in E as [Hin Heq].
    split; [by apply list_elem_of_In|].
    apply String.eqb_eq in Heq. rewrite Heq. apply includes_refl.
  - intros H. apply find_some in H as [Hin Hinc]. split; [by apply list_elem_of_In|done].
Qed.

Lemma truthy_or_else_r (a b : option string) :
  truthy b = true → truthy (Text.or_else a b) = true.
Proof. intros H. unfold Text.or_else. by destruct (truthy a) eqn:E. Qed.

Lemma truthy_nonempty (a : option string) : truthy a = true → or_empty a ≠ "".
Proof.
  unfold or_empty. intros H. rewrite H. destruct a as [t|]; [|done]. cbn in *.
  apply negb_true_iff in H. by apply String.eqb_neq in H.
Qed.


(** X17. When [resolvePlayerByName] resolves to a player, the name was
    given and not blank, the search answered with rows, and the player is
    one of them whose lowered name includes the lowered name given; the
    team returned is that candidate's team or school and is not empty, and
    neither is the name returned. *)
Theorem resolved_player_is_a_search_hit
    (api : Api) (year : num) (playerName : option string) (r : Resolved.t) :
  resolvePlayerByName api year playerName = Resolves (Some r) →
  ∃ given rows m,
    playerName = Some given ∧ trim given ≠ ""
    ∧ searchPlayers api year (trim given) = Returned rows
    ∧ m ∈ rows
    ∧ includes (toLowerCase (candidateName m)) (toLowerCase given) = true
    ∧ Resolved.team r = or_empty (affiliation m)
    ∧ Resolved.team r ≠ "" ∧ Resolved.name r ≠ "".
Proof.
  unfold resolvePlayerByName. destruct playerName as [given|]; [|done].
  destruct (String.eqb (trim given) "") eqn:Eg; [done|].
  apply String.eqb_neq in Eg.
  destruct (searchPlayers api year (trim given)) as [msg|rows] eqn:Es; [done|].
  assert (match findMatch rows (toLowerCase given) with
          | Some m =>
              if negb (truthy (affiliation m)) then Resolves None
              else Resolves (Some
                {| Resolved.team := or_empty (affiliation m);
                   Resolved.name :=
                     or_empty (Text.or_else (Text.or_else (Candidate.name m) (Candidate.player m))
                                 (Some given)) |})
          | None => Resolves None
          end = Resolves (Some r) →
          ∃ m, m ∈ rows
            ∧ includes (toLowerCase (candidateName m)) (toLowerCase given) = true
            ∧ Resolved.team r = or_empty (affiliation m)
            ∧ Resolved.team r ≠ "" ∧ Resolved.name r ≠ "") as Hmatch.
  { destruct (findMatch rows (toLowerCase given)) as [m|] eqn:Em; [|done].
    destruct (truthy (affiliation m)) eqn:Et; cbn [negb]; [|done].
    intros [= <-]. apply findMatch_sound in Em as [Hin Hinc].
    exists m. cbn [Resolved.team Resolved.name]. split_and!; try done.
    - by apply truthy_nonempty.
    - apply truthy_nonempty, truthy_or_else_r. cbn.
      apply negb_true_iff, String.eqb_neq. intros ->. by apply Eg. }
  intros H. destruct rows as [|c rows]; [done|].
  destruct (Hmatch H) as (m & ? & ? & ? & ? & ?). by exists given, (c :: rows), m.
Qed.

Lemma resolved_player_is_a_search_hit_witness :
  ∃ given rows m,
    Some "nix jr" = Some given ∧ trim given ≠ ""
    ∧ searchPlayers (onlySearch namesakes) (lit 2024) (trim given) = Returned rows
    ∧ m ∈ rows
    ∧ includes (toLowerCase (candidateName m)) (toLowerCase given) = true
    ∧ "Oregon" = or_empty (affiliation m)
    ∧ "Oregon" ≠ "" ∧ "Bo Nix Jr" ≠ "".
Proof.
  apply (resolved_player_is_a_search_hit (onlySearch namesakes) (lit 2024) (Some "nix jr")
           {| Resolved.team := "Oregon"; Resolved.name := "Bo Nix Jr" |}).
  vm_compute. reflexivity.
Defined.


(** *** The usage row *)

Lemma usageSignals_picked (u : Usage.t) (p : num) :
  pickNum [Usage.usg_overall u; Usage.usage_overall u; Usage.usage u; Usage.usageOverall u]
  = Some p →
  (usageSignals (Some u)).1 = Some (if gtb p (lit 1) then (p / lit 100)%js else p).
Proof.
  intros E. unfold usageSignals. rewrite E.
  by destruct (gtb p (lit 1)), (Usage.snap_counts u) as [|arr|n]; try destruct (falsy n).
Qed.

Lemma min1_le (x : num) : isNaN x = false → leb (Math_min (lit 1) x) (lit 1) = true.
Proof.
  destruct x as [| |q|]; try done. intros _. cbn.
  case_bool_decide; cbn; apply bool_decide_eq_true; [by apply Qclt_le_weak|done].
Qed.

Lemma not_gtb_leb (x y : num) :
  isNaN x = false → isNaN y = false → gtb x y = false → leb x y = true.
Proof.
  destruct x as [| |a|], y as [| |b|]; try done. intros _ _. cbn.
  rewrite bool_decide_eq_false, bool_decide_eq_true. apply Qcnot_lt_le.
Qed.

Lemma snap_ratio_numeric (arr : list value) :
  forallb (λ b, negb (isInfinite (Number b))) arr = true →
  isNaN (foldl (λ a b, (a + JS.or_else (Number b) (lit 0))%js) (lit 0) arr
         / (lit 70 * lit 12))%js = false.
Proof.
  intros Hfin. destruct (snap_total_finite arr (Q2Qc 0) Hfin) as (q & E).
  change (Fin (Q2Qc 0)) with (lit 0) in E. rewrite E.
  unfold lit. cbn [mul]. by rewrite div_pos_Fin by by_computation.
Qed.

(** X18. The playing time read from a usage row is at most 1 whenever the
    usage picked is at most 100 (a usage above 1 is read as a percentage),
    and whenever it is derived from finite snap counts. *)
Theorem derived_playing_time_is_at_most_one (u : Usage.t) (pt : num) :
  (usageSignals (Some u)).1 = Some pt →
  match pickNum [Usage.usg_overall u; Usage.usage_overall u; Usage.usage u;
                 Usage.usageOverall u] with
  | Some p => leb p (lit 100) = true
  | None => finiteCounts u = true
  end →
  leb pt (lit 1) = true.
Proof.
  destruct (pickNum [Usage.usg_overall u; _; _; _]) as [p|] eqn:Ep.
  - rewrite (usageSignals_picked u p Ep).
    pose proof (pickNum_numeric _ _ Ep) as Hn.
    destruct (gtb p (lit 1)) eqn:H1; intros [= <-] H100; [|by apply not_gtb_leb].
    destruct p as [| |q|]; try done.
    destruct (scaled_rating q 100) as (q' & -> & ? & _); [by_computation|done|].
    by apply leb_lit.
  - unfold usageSignals, finiteCounts. rewrite Ep.
    destruct (Usage.snap_counts u) as [|arr|n]; cbn [fst snd]; [done| |].
    + intros E%(inj Some) Hfin. rewrite <- E. by apply min1_le, snap_ratio_numeric.
    + destruct (falsy n) eqn:Hn; cbn [fst snd]; [done|].
      intros E%(inj Some) _. rewrite <- E. apply min1_le.
      destruct n as [| |q|]; try done.
      by apply (snap_ratio_numeric [VNum (Fin q)]).
Qed.

Lemma derived_playing_time_is_at_most_one_witness :
  leb (lit 0.35) (lit 1) = true.
Proof.
  apply (derived_playing_time_is_at_most_one
           (Usage.make (Some "Ann Lee") None (VNum (lit 35)) VUndefined VUndefined
              VUndefined Usage.NoSnapCounts (VNum (lit 120)) VUndefined VUndefined));
    vm_compute; reflexivity.
Defined.

(** *** The win rate read from the records *)

(** X19. A season row that carries none of the tallies is read as a season
    of one game and no win: the aggregated win rate is 0, not the neutral
    0.5, and [getWinRate] is not consulted. *)
Theorem season_without_tallies_counts_as_winless
    (api : Api) (year : num) (team : string) (playerName : option string)
    (d n s : value) (season : Season.t) :
  findTeamRecord (catchEmpty (getTeamRecords api year team)) year team = Some season →
  default (Season.own season) (Season.total season)
  = Season.makeTally None None None None None None →
  Out.teamWinRate (aggregateFor api year team playerName d n s) = VNum (lit 0).
Proof.
  intros Hfind Hbare.
  assert (winRateFromRecords (catchEmpty (getTeamRecords api year team)) year team = lit 0)
    as Hrate.
  { unfold winRateFromRecords. rewrite Hfind, Hbare. by_computation. }
  unfold aggregateFor. cbv zeta. rewrite Hrate.
  destruct (usageSignals _) as [playingTime snapsPlayed]. cbn [Out.teamWinRate].
  by rewrite bool_decide_eq_false_2 by by_computation.
Qed.

Lemma season_without_tallies_counts_as_winless_witness :
  Out.teamWinRate
    (aggregateFor
       {| searchPlayers _ _ := Failed "offline";
          getPlayerUsage _ _ := Failed "offline";
          getRoster _ _ := Failed "offline";
          getRecruitingPlayers _ _ := Failed "offline";
          getTeamRecords _ _ :=
            Returned [ Season.make (Some (lit 2024)) None (Some "Utah") None
                         (Season.makeTally None None None None None None) ];
          getTeamGames _ _ _ := Failed "offline" |}
       (lit 2024) "Utah" None VUndefined VUndefined VUndefined)
  = VNum (lit 0).
Proof.
  apply (season_without_tallies_counts_as_winless _ _ _ _ _ _ _
           (Season.make (Some (lit 2024)) None (Some "Utah") None
              (Season.makeTally None None None None None None)));
    vm_compute; reflexivity.
Defined.

(** *** Picking a property *)

(** X20. [pickNum] returns the number read from the first value that is
    present and numeric, never [NaN], and [null] when there is none;
    [pickStr] returns the first text that is not blank, trimmed and never
    empty, and [null] when there is none. *)
Theorem picks_take_the_first_usable_value :
  (∀ values,
     match pickNum values with
     | Some n =>
         isNaN n = false
         ∧ ∃ before v after,
             values = before ++ v :: after ∧ isNullish v = false ∧ n = Number v
             ∧ Forall (λ x, isNullish x || isNaN (Number x) = true) before
     | None => Forall (λ x, isNullish x || isNaN (Number x) = true) values
     end)
  ∧ (∀ values,
       match pickStr values with
       | Some picked =>
           picked ≠ ""
           ∧ ∃ before v after,
               values = before ++ Some v :: after ∧ picked = trim v
               ∧ Forall (λ x, blank x = true) before
       | None => Forall (λ x, blank x = true) values
       end).
Proof.
  split.
  - induction values as [|v rest IH]; [by constructor|]. cbn [pickNum].
    destruct (isNullish v) eqn:Hv; cbn [negb andb].
    + destruct (pickNum rest) as [n|].
      * destruct IH as (Hn & before & x & after & -> & Hx & -> & Hb).
        split; [done|]. exists (v :: before), x, after. split_and!; try done.
        constructor; [by rewrite Hv|done].
      * constructor; [by rewrite Hv|done].
    + destruct (isNaN (Number v)) eqn:Hn; cbn [negb].
      * destruct (pickNum rest) as [n|].
        -- destruct IH as (Hn' & before & x & after & -> & Hx & -> & Hb).
           split; [done|]. exists (v :: before), x, after. split_and!; try done.
           constructor; [by rewrite Hn, orb_true_r|done].
        -- constructor; [by rewrite Hn, orb_true_r|done].
      * split; [done|]. exists [], v, rest. by split_and!.
  - induction values as [|v rest IH]; [by constructor|]. cbn [pickStr].
    destruct v as [t|].
    + destruct (String.eqb (trim t) "") eqn:Ht; cbn [negb].
      * destruct (pickStr rest) as [picked|].
        -- destruct IH as (Hp & before & x & after & -> & -> & Hb).
           split; [done|]. exists (Some t :: before), x, after. split_and!; try done.
           by constructor.
        -- by constructor.
      * split; [by apply String.eqb_neq|]. exists [], t, rest.
        by split_and!.
    + destruct (pickStr rest) as [picked|].
      * destruct IH as (Hp & before & x & after & -> & -> & Hb).
        split; [done|]. exists (None :: before), x, after. split_and!; try done.
        by constructor.
      * by constructor.
Qed.


(** *** The fallback win rate *)







End AggregatorLaws.

Module ServerLaws.

Import JS Text Aggregator Server ScorerSpec ScorerTerms AggregatorSpec.

Lemma blank_trim (s : option string) :
  blank s = true → truthy s = true → ∃ t, s = Some t ∧ String.eqb (trim t) "" = true.
Proof. destruct s as [t|]; [|done]. intros H _. by exists t. Qed.

(** Without a lookup nothing is resolved: the first guard of
    [aggregatePlayerInput] raises for a name of blanks, the second for no
    name. *)
Lemma aggregate_without_lookup (api : Api) (opts : Opts.t) :
  blank (Opts.team opts) = true → blank (Opts.playerName opts) = true →
  aggregatePlayerInput api opts
  = Throws (if truthy (Opts.playerName opts)
            then ResolutionError (or_empty (Opts.playerName opts))
            else InputError).
Proof.
  intros Ht Hn. unfold aggregatePlayerInput. rewrite Ht. cbn [andb]. cbv zeta.
  destruct (truthy (Opts.playerName opts)) eqn:E.
  - destruct (blank_trim _ Hn E) as (t & -> & Hblank).
    unfold resolvePlayerByName. by rewrite Hblank.
  - by rewrite Ht.
Qed.

(** X22. A score request without a lookup (no team and no player name, or
    blanks only) never reaches the source: with a raw playing time, win rate
    or recruiting rank it is scored from the body as it is; without, it is
    answered with an error, whatever the source would return. *)
Theorem post_without_lookup_makes_no_query (api : Api) (body : Body.t) :
  hasLookup body = false →
  scorePost api body
  = if hasRawScore body
    then Direct (Scorer.computeTransferProbability (asSignals body) ∅)
    else ServerError (if truthy (Body.playerName body)
                      then ResolutionError (or_empty (Body.playerName body))
                      else InputError).
Proof.
  intros H. unfold scorePost. rewrite H. cbn [negb andb].
  destruct (hasRawScore body); [done|].
  unfold hasLookup in H. apply orb_false_iff in H as [Ht Hn].
  apply negb_false_iff in Ht, Hn.
  by rewrite (aggregate_without_lookup api (asOpts body) Ht Hn).
Qed.

Lemma post_without_lookup_makes_no_query_witness :
  scorePost (onlySearch namesakes)
    (Body.make (lit 2024) None (Some "  ") VUndefined VUndefined VUndefined
       None None None None None)
  = ServerError (ResolutionError "  ").
Proof.
  apply (post_without_lookup_makes_no_query (onlySearch namesakes)
           (Body.make (lit 2024) None (Some "  ") VUndefined VUndefined VUndefined
              None None None None None)).
  vm_compute. reflexivity.
Defined.


(** *** What a score request scores *)

(** The factors of a result, by name, in terms of the signals read. *)
Lemma factors_by_name (input : Scorer.SignalRecord) (ws : Scorer.weightMap) :
  let r := Scorer.computeTransferProbability input ws in
  prop (Scorer.factors r) "playingTime"
    = Some (Scorer.riskFromPlayingTime (Scorer.playingTime input))
  ∧ prop (Scorer.factors r) "distanceFromHome"
    = Some (Scorer.riskFromDistance (Scorer.distanceFromHighSchoolMiles input))
  ∧ prop (Scorer.factors r) "teamPerformance"
    = Some (Scorer.riskFromTeamPerformance (Scorer.teamWinRate input))
  ∧ prop (Scorer.factors r) "nilCollectives"
    = Some (Scorer.riskFromNIL (Scorer.nilScore input))
  ∧ prop (Scorer.factors r) "snapsPlayed"
    = Some (Scorer.riskFromSnaps (Scorer.snapsPlayed input) (lit 800))
  ∧ prop (Scorer.factors r) "socialSentiment"
    = Some (Scorer.riskFromSocial (Scorer.socialSentiment input)).
Proof.
  cbv zeta. rewrite ScorerProofs.factors_computed. unfold Scorer.computeFactors, prop.
  destruct (ScorerLaws.playingTime_passed_on (Scorer.playingTime input)) as [-> _].
  cbn [list_to_map foldr].
  split_and!; repeat (rewrite lookup_insert_ne by done); by rewrite lookup_insert_eq.
Qed.

(** X23. A score request with a lookup scores the body over the lookup:
    the distance, NIL and sentiment factors are those of the body's values,
    absent ones included, so a distance derived from the roster is never
    scored; and a playing time, win rate or snap count whose key is in the
    body, [null] included, replaces the aggregated one. *)
Theorem post_scores_the_body_over_the_lookup
    (api : Api) (body : Body.t) (merged : Scorer.SignalRecord) (meta : Meta.t)
    (result : Scorer.Result) :
  scorePost api body = Aggregated merged meta result →
  result = Scorer.computeTransferProbability merged ∅
  ∧ Scorer.weights merged = Body.weights body
  ∧ prop (Scorer.factors result) "distanceFromHome"
    = Some (Scorer.riskFromDistance (Body.distanceFromHighSchoolMiles body))
  ∧ prop (Scorer.factors result) "nilCollectives"
    = Some (Scorer.riskFromNIL (Body.nilScore body))
  ∧ prop (Scorer.factors result) "socialSentiment"
    = Some (Scorer.riskFromSocial (Body.socialSentiment body))
  ∧ (∀ v, Body.playingTime body = Some v →
       prop (Scorer.factors result) "playingTime" = Some (Scorer.riskFromPlayingTime v))
  ∧ (∀ v, Body.teamWinRate body = Some v →
       prop (Scorer.factors result) "teamPerformance"
       = Some (Scorer.riskFromTeamPerformance v))
  ∧ (∀ v, Body.snapsPlayed body = Some v →
       prop (Scorer.factors result) "snapsPlayed"
       = Some (Scorer.riskFromSnaps v (lit 800)))
  ∧ (isNullish (Body.distanceFromHighSchoolMiles body) = true →
     prop (Scorer.factors result) "distanceFromHome" = Some (lit 0.5)).
Proof.
  unfold scorePost. destruct (negb (hasLookup body) && hasRawScore body); [done|].
  destruct (aggregatePlayerInput api (asOpts body)) as [aggregated|e]; [|done].
  cbv zeta. intros [= <- <- <-].
  destruct (factors_by_name (merge aggregated body) ∅) as (Hpt & Hd & Hw & Hn & Hs & Hso).
  cbn [merge Scorer.playingTime Scorer.distanceFromHighSchoolMiles Scorer.teamWinRate
       Scorer.nilScore Scorer.snapsPlayed Scorer.socialSentiment] in *.
  split_and!; try done.
  - intros v Hv. by rewrite Hv in Hpt.
  - intros v Hv. by rewrite Hv in Hw.
  - intros v Hv. by rewrite Hv in Hs.
  - intros Hnull. rewrite Hd. unfold Scorer.riskFromDistance. by rewrite Hnull.
Qed.

Lemma post_scores_the_body_over_the_lookup_witness :
  ∃ merged meta result,
    scorePost buckeyes
      (Body.make (lit 2024) (Some "Ohio State") (Some "Ann Lee")
         VUndefined VUndefined VUndefined None (Some VNull) None None None)
    = Aggregated merged meta result
    ∧ prop (Scorer.factors result) "distanceFromHome" = Some (lit 0.5)
    ∧ prop (Scorer.factors result) "teamPerformance"
      = Some (Scorer.riskFromTeamPerformance VNull).
Proof.
  do 3 eexists.
  pose proof (post_scores_the_body_over_the_lookup buckeyes
                (Body.make (lit 2024) (Some "Ohio State") (Some "Ann Lee")
                   VUndefined VUndefined VUndefined None (Some VNull) None None None)
                _ _ _ eq_refl) as (_ & _ & _ & _ & _ & _ & Hw & _ & Hd).
  split; [reflexivity|]. split; [exact (Hd eq_refl)|exact (Hw VNull eq_refl)].
Defined.

(** *** The two ways to ask for a lookup *)

Lemma sameReading_refl (v : value) : sameReading v v = true.
Proof.
  unfold sameReading. destruct (isNullish v); [done|]. cbn.
  by rewrite bool_decide_eq_true_2.
Qed.

Lemma aggregateFor_passes_on (api : Api) (year : num) (team : string)
    (playerName : option string) (d n s : value) :
  Out.nilScore (aggregateFor api year team playerName d n s) = nullish_or n VUndefined
  ∧ Out.socialSentiment (aggregateFor api year team playerName d n s)
    = nullish_or s VUndefined.
Proof. unfold aggregateFor. cbv zeta. by destruct (usageSignals _). Qed.

(** X24. [GET /?team=...] and a [POST] whose body names the same lookup
    and nothing else fail alike, and where they succeed they score the same
    signals except for the distance: the [POST] scores none, the [GET] the
    one derived from the roster.  So the two results are the same exactly
    when no distance was derived. *)
Theorem get_and_post_differ_in_the_derived_distance
    (api : Api) (year : num) (team : string) (player : option string) :
  player = (if truthy player then player else None) →
  match scoreGet api year team player with
  | Aggregated signals meta result =>
      ∃ merged,
        scorePost api (lookupOnly year team player)
        = Aggregated merged meta (Scorer.computeTransferProbability merged ∅)
        ∧ Scorer.distanceFromHighSchoolMiles merged = VUndefined
        ∧ Scorer.playingTime merged = Scorer.playingTime signals
        ∧ Scorer.recruitingRank merged = Scorer.recruitingRank signals
        ∧ Scorer.teamWinRate merged = Scorer.teamWinRate signals
        ∧ Scorer.nilScore merged = Scorer.nilScore signals
        ∧ Scorer.snapsPlayed merged = Scorer.snapsPlayed signals
        ∧ Scorer.socialSentiment merged = Scorer.socialSentiment signals
        ∧ Scorer.weights merged = Scorer.weights signals
        ∧ (isNullish (Scorer.distanceFromHighSchoolMiles signals) = true →
           Scorer.computeTransferProbability merged ∅ = result)
  | ServerError e => scorePost api (lookupOnly year team player) = ServerError e
  | Direct _ => False
  end.
Proof.
  intros Hplayer. unfold scoreGet, scorePost. cbv zeta. rewrite <- Hplayer.
  assert (hasRawScore (lookupOnly year team player) = false) as -> by done.
  rewrite andb_false_r.
  change (asOpts (lookupOnly year team player))
    with (Opts.make year (Some team) player VUndefined VUndefined VUndefined
            VUndefined VUndefined VUndefined VUndefined).
  destruct (aggregatePlayerInput api _) as [out|e] eqn:E; [|done].
  apply AggregatorProofs.aggregate_resolves in E as (team' & name' & ->).
  cbn [Opts.year Opts.distanceFromHighSchoolMiles Opts.nilScore Opts.socialSentiment].
  destruct (aggregateFor_passes_on api year team' name' VUndefined VUndefined VUndefined)
    as [Hn Hs].
  eexists. split; [reflexivity|].
  unfold merge, Cli.asSignalRecord, lookupOnly, spreadOver.
  cbn [Scorer.playingTime Scorer.distanceFromHighSchoolMiles Scorer.recruitingRank
       Scorer.teamWinRate Scorer.nilScore Scorer.snapsPlayed Scorer.socialSentiment
       Scorer.weights Body.playingTime Body.distanceFromHighSchoolMiles
       Body.recruitingRank Body.teamWinRate Body.nilScore Body.snapsPlayed
       Body.socialSentiment Body.weights].
  rewrite Hn, Hs. split_and!; try done.
  intros Hnull. apply ScorerProofs.compute_ext; [|done].
  apply ScorerLaws.sameReadings_factors. unfold sameReadings.
  cbn [Scorer.playingTime Scorer.distanceFromHighSchoolMiles Scorer.recruitingRank
       Scorer.teamWinRate Scorer.nilScore Scorer.snapsPlayed Scorer.socialSentiment].
  rewrite !sameReading_refl. unfold sameReading at 1. cbn [isNullish]. by rewrite Hnull.
Qed.

Lemma get_and_post_differ_in_the_derived_distance_witness :
  ∃ merged,
    scorePost buckeyes (lookupOnly (lit 2024) "Ohio State" (Some "Ann Lee"))
    = Aggregated merged
        (Meta.make (Some "Ann Lee") "Ohio State" (lit 2024))
        (Scorer.computeTransferProbability merged ∅)
    ∧ Scorer.distanceFromHighSchoolMiles merged = VUndefined.
Proof.
  pose proof (get_and_post_differ_in_the_derived_distance buckeyes (lit 2024)
                "Ohio State" (Some "Ann Lee") eq_refl) as H.
  destruct H as (merged & E & Hd & _). exists merged. split; [exact E|exact Hd].
Defined.

(** The two replies do differ where a distance is derived: for the
    Ohio State player from Columbus, OH the [GET] scores 100 miles. *)
Example get_and_post_disagree_in_columbus :
  (∃ signals meta result,
     scoreGet buckeyes (lit 2024) "Ohio State" (Some "Ann Lee")
     = Aggregated signals meta result
     ∧ Scorer.distanceFromHighSchoolMiles signals = VNum (lit 100)
     ∧ Scorer.probability result = lit 47.6)
  ∧ (∃ merged meta result,
       scorePost buckeyes (lookupOnly (lit 2024) "Ohio State" (Some "Ann Lee"))
       = Aggregated merged meta result
       ∧ Scorer.distanceFromHighSchoolMiles merged = VUndefined
       ∧ Scorer.probability result = lit 54.1).
Proof.
  split; do 3 eexists; (split; [reflexivity|]); split; by_computation.
Qed.

End ServerLaws.

Module CommandLineLaws.

Import JS Text Aggregator CommandLine AggregatorSpec.




End CommandLineLaws.
